(** * iPXE PCI configuration-space access through EFI (efi_pci.c)

    A shallow embedding of [src/interface/efi/efi_pci.c]: the address
    codec [efipci_address], the two firmware-mediated accessors
    [efipci_read] and [efipci_write], and the properties the design
    document states about them.

    Integers are modelled as [Z]; the C bit operators are [Z.land],
    [Z.lor], [Z.shiftl] and [Z.shiftr].  The firmware protocol instance
    and the debug console are the only state; they are threaded through
    a small state monad that also records every firmware transaction. *)

From Stdlib Require Import ZArith Lia List String Bool.
Import ListNotations.
Local Open Scope Z_scope.

(** ** Header macros

    [efi_pci.c] is written entirely in terms of macros that live in
    headers outside the translated sources.  They are modelled here, one
    definition per macro, under the macro's own name. *)

(** Modelled from the spec: [EFIPCI_WIDTH_BYTE] of
    <ipxe/efi/efi_pci_api.h> is missing; the spec (section 3) gives the
    three widths byte, word and dword, which the firmware protocol
    numbers 0, 1 and 2. *)
Definition EFIPCI_WIDTH_BYTE : Z := 0.

(** Modelled from the spec: [EFIPCI_WIDTH_WORD] of
    <ipxe/efi/efi_pci_api.h> is missing; the word width of section 3,
    numbered 1 by the firmware protocol. *)
Definition EFIPCI_WIDTH_WORD : Z := 1.

(** Modelled from the spec: [EFIPCI_WIDTH_DWORD] of
    <ipxe/efi/efi_pci_api.h> is missing; the dword width of section 3,
    numbered 2 by the firmware protocol. *)
Definition EFIPCI_WIDTH_DWORD : Z := 2.

(** Modelled from the spec: [EFIPCI_LOCATION] of
    <ipxe/efi/efi_pci_api.h> is missing; the spec (section 4.1) speaks
    of a raw offset that carries a width tag.  The tag sits above the
    sixteen offset bits. *)
Definition EFIPCI_LOCATION (offset width : Z) : Z :=
  Z.lor offset (Z.shiftl width 16).

(** Modelled from the spec: [EFIPCI_OFFSET] of
    <ipxe/efi/efi_pci_api.h> is missing; the spec (section 4.1) says the
    width tag is stripped from the raw offset before encoding. *)
Definition EFIPCI_OFFSET (location : Z) : Z :=
  Z.land location 0xffff.

(** Modelled from the spec: [EFIPCI_WIDTH] of
    <ipxe/efi/efi_pci_api.h> is missing; the spec (section 4.1) says the
    width is passed separately to the backend. *)
Definition EFIPCI_WIDTH (location : Z) : Z :=
  Z.shiftr location 16.

(** Number of bytes moved by an access of the given width code. *)
Definition width_bytes (width : Z) : Z := Z.shiftl 1 width.

(** Modelled from the spec: [PCI_BUSDEVFN] of <ipxe/pci.h> is missing;
    the spec (section 3) gives the Device Locator as bus, device and
    function of 8, 5 and 3 bits in the classic packed
    bus/device/function encoding: function in bits 2-0, device in bits
    7-3, bus in bits 15-8. *)
Definition PCI_BUSDEVFN (bus slot func : Z) : Z :=
  Z.lor (Z.lor (Z.shiftl bus 8) (Z.shiftl slot 3)) (Z.shiftl func 0).

(** Modelled from the spec: [PCI_BUS] of <ipxe/pci.h> is missing; the
    eight bus bits of the packed locator (section 3). *)
Definition PCI_BUS (busdevfn : Z) : Z := Z.land (Z.shiftr busdevfn 8) 0xff.

(** Modelled from the spec: [PCI_SLOT] of <ipxe/pci.h> is missing; the
    five device bits of the packed locator (section 3). *)
Definition PCI_SLOT (busdevfn : Z) : Z := Z.land (Z.shiftr busdevfn 3) 0x1f.

(** Modelled from the spec: [PCI_FUNC] of <ipxe/pci.h> is missing; the
    three function bits of the packed locator (section 3). *)
Definition PCI_FUNC (busdevfn : Z) : Z := Z.land (Z.shiftr busdevfn 0) 0x07.

(** Modelled from the spec: [EFI_PCI_ADDRESS] of
    <ipxe/efi/Protocol/PciRootBridgeIo.h> is missing; the spec (section
    4.1) packs bus, device, function and register into one integer with
    the register in bits 7-0, scaled by the backend's convention.  The
    root-bridge convention gives each field a byte of its own: function
    from bit 8, device from bit 16, bus from bit 24. *)
Definition EFI_PCI_ADDRESS (bus dev func reg : Z) : Z :=
  Z.lor (Z.lor (Z.lor (Z.shiftl bus 24) (Z.shiftl dev 16)) (Z.shiftl func 8))
        reg.

(** The part of [struct pci_device] that [efi_pci.c] reads. *)
Record pci_device : Type := { busdevfn : Z }.

(** ** Address codec *)

Definition efipci_address (pci : pci_device) (location : Z) : Z :=
  EFI_PCI_ADDRESS (PCI_BUS (busdevfn pci))
                  (PCI_SLOT (busdevfn pci))
                  (PCI_FUNC (busdevfn pci))
                  (EFIPCI_OFFSET location).

(** Reading a Config Address back into its four fields. *)
Definition efipci_decode (address : Z) : Z * Z * Z * Z :=
  (Z.land (Z.shiftr address 24) 0xff,
   Z.land (Z.shiftr address 16) 0x1f,
   Z.land (Z.shiftr address 8) 0x07,
   Z.land address 0xff).

(** Modelled from the spec: the checking codec that section 4.1
    describes under the name [encode]; it is not part of [efi_pci.c]
    and stands here for comparison with [efipci_address].  It refuses
    a Device Locator outside bus 0-255, device 0-31, function 0-7 and
    a register offset that is not a multiple of the access size;
    [None] stands for the caller-contract violation. *)
Definition spec_encode (bus dev func offset width : Z) : option Z :=
  if (0 <=? bus) && (bus <=? 255) && (0 <=? dev) && (dev <=? 31)
     && (0 <=? func) && (func <=? 7)
     && (offset mod width_bytes width =? 0)
  then Some (EFI_PCI_ADDRESS bus dev func offset)
  else None.

(** Modelled from the spec: the inline [pci_max_bus] of
    <ipxe/efi/efi_pci_api.h> is missing, [efi_pci.c] only exports it;
    the spec (section 4.5) allows a fixed constant for a backend that
    cannot discover the topology, and section 3 bounds the bus field by
    eight bits. *)
Definition pci_max_bus : Z := 0xff.

(** ** Firmware, console and the state monad *)

(** Status returned by a firmware service ([EFI_STATUS]). *)
Definition EFI_STATUS : Type := Z.

(** Modelled from the spec: [EFI_NOT_FOUND] of the firmware's base
    types is missing; the spec (section 4.3) names a "not found" signal
    apart from success.  The firmware numbers it as error 14, with the
    error bit (the top bit of a 64-bit status) set. *)
Definition EFI_NOT_FOUND : EFI_STATUS := Z.lor (Z.shiftl 1 63) 14.

(** The two services of [EFI_PCI_ROOT_BRIDGE_IO_PROTOCOL] that the
    driver calls, as transitions of a firmware state [FW].  Both take
    width, address and count; [Pci_Read] takes the caller's buffer and
    hands back what the buffer holds afterwards, [Pci_Write] takes the
    value to store. *)
Record EFI_PCI_ROOT_BRIDGE_IO_PROTOCOL (FW : Type) : Type := {
  Pci_Read : FW -> Z -> Z -> Z -> Z -> EFI_STATUS * Z * FW;
  Pci_Write : FW -> Z -> Z -> Z -> Z -> EFI_STATUS * FW
}.
Arguments Pci_Read {FW} _ _ _ _ _ _.
Arguments Pci_Write {FW} _ _ _ _ _ _.

(** An argument of a [DBG] format string. *)
Inductive dbg_arg : Type :=
| ArgHex (z : Z)
| ArgStr (s : string).

(** What the driver does to the outside: firmware transactions and
    debug messages, in the order they happen. *)
Inductive event : Type :=
| PciRead (width address count : Z)
| PciWrite (width address count value : Z)
| Dbg (fmt : string) (args : list dbg_arg).

Record world (FW : Type) : Type := {
  firmware : FW;
  trace : list event
}.
Arguments firmware {FW} _.
Arguments trace {FW} _.

Definition M (FW A : Type) : Type := world FW -> A * world FW.

Definition ret {FW A : Type} (a : A) : M FW A := fun w => (a, w).

Definition bind {FW A B : Type} (m : M FW A) (k : A -> M FW B) : M FW B :=
  fun w => let (a, w') := m w in k a w'.

Notation "x <- m ;; k" := (bind m (fun x => k))
  (at level 61, m at next level, right associativity).
Notation "m ;;; k" := (bind m (fun _ => k))
  (at level 61, right associativity).

(** The events a computation adds to the trace. *)
Definition emitted {FW A : Type} (m : M FW A) (w : world FW) : list event :=
  skipn (List.length (trace w)) (trace (snd (m w))).

Definition is_transaction (e : event) : bool :=
  match e with
  | PciRead _ _ _ | PciWrite _ _ _ _ => true
  | Dbg _ _ => false
  end.

Definition transactions (l : list event) : list event :=
  filter is_transaction l.

Definition newline : string := String (Ascii.ascii_of_nat 10) EmptyString.

(** Modelled from the spec: [PCI_FMT] of <ipxe/pci.h> is missing; the
    spec (section 4.3) has the Device Locator in the log, which is bus,
    device and function. *)
Definition PCI_FMT : string := "PCI %02x:%02x.%x"%string.

(** Modelled from the spec: [PCI_ARGS] of <ipxe/pci.h> is missing; the
    three fields of the Device Locator, in the order of [PCI_FMT]. *)
Definition PCI_ARGS (pci : pci_device) : list dbg_arg :=
  [ArgHex (PCI_BUS (busdevfn pci)); ArgHex (PCI_SLOT (busdevfn pci));
   ArgHex (PCI_FUNC (busdevfn pci))].

(** ** The driver *)

Section Driver.

Variable FW : Type.
(** The process-wide protocol instance [efipci]. *)
Variable efipci : EFI_PCI_ROOT_BRIDGE_IO_PROTOCOL FW.
(** [EIO] of <errno.h> and [efi_strerror] are outside the translated
    sources; the driver is read for any value of them. *)
Variable EIO : Z.
Variable efi_strerror : EFI_STATUS -> string.

(** [efipci->Pci.Read ( efipci, width, address, count, buffer )] *)
Definition call_Pci_Read (width address count buffer : Z)
  : M FW (EFI_STATUS * Z) :=
  fun w =>
    match Pci_Read efipci (firmware w) width address count buffer with
    | (efirc, buffer', fw') =>
        ((efirc, buffer'),
         {| firmware := fw';
            trace := trace w ++ [PciRead width address count] |})
    end.

(** [efipci->Pci.Write ( efipci, width, address, count, &value )] *)
Definition call_Pci_Write (width address count value : Z)
  : M FW EFI_STATUS :=
  fun w =>
    match Pci_Write efipci (firmware w) width address count value with
    | (efirc, fw') =>
        (efirc,
         {| firmware := fw';
            trace := trace w ++ [PciWrite width address count value] |})
    end.

(** [DBG ( fmt, args... )]: the message handed to the debug console.
    Whether the console shows it depends on the build; the trace keeps
    what the driver passes. *)
Definition DBG (fmt : string) (args : list dbg_arg) : M FW unit :=
  fun w =>
    (tt, {| firmware := firmware w; trace := trace w ++ [Dbg fmt args] |}).

(** [efipci_read] returns the [int] result together with the contents
    of the caller's buffer [*value] after the call. *)
Definition efipci_read (pci : pci_device) (location : Z) (value : Z)
  : M FW (Z * Z) :=
  r <- call_Pci_Read (EFIPCI_WIDTH location)
                     (efipci_address pci location) 1 value ;;
  let (efirc, value') := r in
  if negb (efirc =? 0) then
    DBG ("EFIPCI config read from " ++ PCI_FMT ++ " offset %02lx "
         ++ "failed: %s" ++ newline)%string
        (PCI_ARGS pci ++ [ArgHex (EFIPCI_OFFSET location);
                          ArgStr (efi_strerror efirc)])%list ;;;
    ret (- EIO, value')
  else
    ret (0, value').

Definition efipci_write (pci : pci_device) (location : Z) (value : Z)
  : M FW Z :=
  efirc <- call_Pci_Write (EFIPCI_WIDTH location)
                          (efipci_address pci location) 1 value ;;
  if negb (efirc =? 0) then
    DBG ("EFIPCI config write to " ++ PCI_FMT ++ " offset %02lx "
         ++ "failed: %s" ++ newline)%string
        (PCI_ARGS pci ++ [ArgHex (EFIPCI_OFFSET location);
                          ArgStr (efi_strerror efirc)])%list ;;;
    ret (- EIO)
  else
    ret 0.

End Driver.

Arguments efipci_read {FW} efipci EIO efi_strerror pci location value.
Arguments efipci_write {FW} efipci EIO efi_strerror pci location value.
Arguments call_Pci_Read {FW} efipci width address count buffer.
Arguments call_Pci_Write {FW} efipci width address count value.
Arguments DBG {FW} fmt args.

(** ** Sample firmware *)

(** A world at start-up: nothing has happened yet. *)
Definition boot {FW : Type} (fw : FW) : world FW :=
  {| firmware := fw; trace := [] |}.

(** A firmware that refuses every access with the status [efirc] and
    leaves the caller's buffer alone. *)
Definition refusing_firmware (efirc : EFI_STATUS)
  : EFI_PCI_ROOT_BRIDGE_IO_PROTOCOL unit :=
  {| Pci_Read := fun fw _ _ _ buffer => (efirc, buffer, fw);
     Pci_Write := fun fw _ _ _ _ => (efirc, fw) |}.

(** A firmware over a plain register file, indexed by Config Address:
    every access succeeds. *)
Definition register_file : EFI_PCI_ROOT_BRIDGE_IO_PROTOCOL (Z -> Z) :=
  {| Pci_Read := fun regs _ address _ _ => (0, regs address, regs);
     Pci_Write := fun regs _ address _ value =>
                    (0, fun a => if a =? address then value else regs a) |}.

(** A stand-in for [efi_strerror] and for [EIO] in the examples; the
    driver does not depend on the text, nor on the number beyond its
    being non-zero. *)
Definition example_strerror (efirc : EFI_STATUS) : string :=
  if efirc =? 0 then "Success"%string else "Error"%string.
Definition example_EIO : Z := 5.

(** Bus 3, device 4, function 5. *)
Definition example_device : pci_device :=
  {| busdevfn := PCI_BUSDEVFN 3 4 5 |}.

(** The debug messages among a list of events. *)
Definition messages (l : list event) : list event :=
  filter (fun e => negb (is_transaction e)) l.

(** * Mathematical self-tests (tests/math_test.c) *)

(** ** Fixed-width integers *)

Definition to_u64 (z : Z) : Z := z mod 2 ^ 64.
Definition to_s64 (z : Z) : Z := (z + 2 ^ 63) mod 2 ^ 64 - 2 ^ 63.
Definition to_uint (z : Z) : Z := z mod 2 ^ 32.
Definition to_ulong (bits z : Z) : Z := z mod 2 ^ bits.
Definition to_long (bits z : Z) : Z :=
  (z + 2 ^ (bits - 1)) mod 2 ^ bits - 2 ^ (bits - 1).

Definition in_s64 (z : Z) : bool := (- 2 ^ 63 <=? z) && (z <? 2 ^ 63).

(** [/] and [%] on [uint64_t]: undefined for a zero divisor. *)
Definition u64_div (dividend divisor : Z) : option Z :=
  if divisor =? 0 then None else Some (dividend / divisor).
Definition u64_mod (dividend divisor : Z) : option Z :=
  if divisor =? 0 then None else Some (dividend mod divisor).

(** [/] and [%] on [int64_t]: the quotient is truncated towards zero;
    undefined for a zero divisor and for the one quotient that does not
    fit. *)
Definition s64_div (dividend divisor : Z) : option Z :=
  if (divisor =? 0) || ((dividend =? - 2 ^ 63) && (divisor =? -1))
  then None else Some (Z.quot dividend divisor).
Definition s64_mod (dividend divisor : Z) : option Z :=
  if (divisor =? 0) || ((dividend =? - 2 ^ 63) && (divisor =? -1))
  then None else Some (Z.rem dividend divisor).

(** [*] and [+] on [int64_t]: undefined when the result does not fit. *)
Definition s64_mul (a b : Z) : option Z :=
  if in_s64 (a * b) then Some (a * b) else None.
Definition s64_add (a b : Z) : option Z :=
  if in_s64 (a + b) then Some (a + b) else None.

(** ** The test harness *)

(** What a test hands to the harness: the outcome of an [okx] with the
    place it comes from, and the condition of an [assert]. *)
Inductive report : Type :=
| Okx (success : bool) (file : string) (line : Z)
| Assert (condition : bool).

Record harness : Type := {
  reports : list report;
  stack_checks : nat
}.

(** A test computation; [None] is undefined behaviour. *)
Definition T (A : Type) : Type := harness -> option (A * harness).

Definition tret {A : Type} (a : A) : T A := fun h => Some (a, h).

Definition tbind {A B : Type} (m : T A) (k : A -> T B) : T B :=
  fun h => match m h with
           | Some (a, h') => k a h'
           | None => None
           end.

Definition defined {A : Type} (o : option A) : T A :=
  fun h => match o with
           | Some a => Some (a, h)
           | None => None
           end.

Notation "x <~ m ;; k" := (tbind m (fun x => k))
  (at level 61, m at next level, right associativity).
Notation "m ~;; k" := (tbind m (fun _ => k))
  (at level 61, right associativity).

(** The outcomes of the [okx] calls among the reports, in order. *)
Fixpoint successes (l : list report) : list bool :=
  match l with
  | [] => []
  | Okx s _ _ :: l' => s :: successes l'
  | Assert _ :: l' => successes l'
  end.

(** The conditions of the [assert] calls among the reports, in order. *)
Fixpoint assertions (l : list report) : list bool :=
  match l with
  | [] => []
  | Okx _ _ _ :: l' => assertions l'
  | Assert c :: l' => c :: assertions l'
  end.

(** The position of the most significant set bit of a [bits]-wide
    pattern, counting the least significant bit as 1, or zero. *)
Definition msb_position (bits value : Z) : Z :=
  if to_ulong bits value =? 0 then 0 else Z.log2 (to_ulong bits value) + 1.

(** [struct key_mapping] *)
Record key_mapping : Type := { from : Z; to : Z }.

(** Strictly ascending in the character being remapped. *)
Fixpoint ascending (l : list key_mapping) : bool :=
  match l with
  | a :: (b :: _) as l' => (from a <? from b) && ascending l'
  | _ => true
  end.

Section MathTest.

(** The width of [long], and the functions and values that come from
    outside [math_test.c]: [flsl] of <strings.h>, [isqrt] of
    <ipxe/isqrt.h>, the value that the [n]-th call of [stack_check]
    finds on the stack, and [__FILE__]. *)
Variable LONG_BITS : Z.
Variable flsl : Z -> Z.
Variable isqrt : Z -> Z.
Variable stack : nat -> Z.
Variable FILE : string.

(** [okx ( success, file, line )] of <ipxe/test.h>: the harness keeps
    the outcome. *)
Definition okx (success : bool) (file : string) (line : Z) : T unit :=
  fun h => Some (tt, {| reports := reports h ++ [Okx success file line];
                        stack_checks := stack_checks h |}).

(** [ok ( success )] is [okx ( success, __FILE__, __LINE__ )]. *)
Definition ok (success : bool) (line : Z) : T unit := okx success FILE line.

(** [assert ( condition )], with assertions forced on: the harness
    keeps the condition. *)
Definition assert (condition : bool) : T unit :=
  fun h => Some (tt, {| reports := reports h ++ [Assert condition];
                        stack_checks := stack_checks h |}).

Definition flsl_var (value : Z) : Z := flsl value.

Definition stack_check : T Z :=
  fun h => Some (stack (stack_checks h),
                 {| reports := reports h;
                    stack_checks := S (stack_checks h) |}).

(** The [do ... while ( --count )] loop of [check_divmod]: one pass of
    the body, then [more] further passes.  [check] is the pointer kept
    from the first pass, 0 for [NULL]; [result] is a [uint64_t]. *)
Fixpoint check_divmod_loop (OP : Z -> Z -> option Z) (dividend divisor : Z)
  (more : nat) (check : Z) : T Z :=
  check' <~ (if negb (check =? 0) then
               sp <~ stack_check ;;
               assert (check =? sp) ~;;
               tret check
             else
               stack_check) ;;
  r <~ defined (OP dividend divisor) ;;
  match more with
  | O => tret (to_u64 r)
  | S more' => check_divmod_loop OP dividend divisor more' check'
  end.

(** [check_divmod ( dividend, divisor, OP )]: [count] starts at 2. *)
Definition check_divmod (OP : Z -> Z -> option Z) (dividend divisor : Z)
  : T Z :=
  check_divmod_loop OP dividend divisor 1 0.

Definition u64div_var (dividend divisor : Z) : T Z :=
  check_divmod u64_div dividend divisor.

Definition u64mod_var (dividend divisor : Z) : T Z :=
  check_divmod u64_mod dividend divisor.

Definition s64div_var (dividend divisor : Z) : T Z :=
  r <~ check_divmod s64_div dividend divisor ;; tret (to_s64 r).

Definition s64mod_var (dividend divisor : Z) : T Z :=
  r <~ check_divmod s64_mod dividend divisor ;; tret (to_s64 r).

Definition flsl_okx (value msb : Z) (file : string) (line : Z) : T unit :=
  okx (flsl value =? msb) file line ~;;
  okx (flsl_var value =? msb) file line.

Definition flsl_ok (value msb line : Z) : T unit :=
  flsl_okx value msb FILE line.

Definition u64divmod_okx (dividend divisor quotient remainder : Z)
  (file : string) (line : Z) : T unit :=
  okx (to_u64 (to_u64 (divisor * quotient) + remainder) =? dividend)
      file line ~;;
  q <~ u64div_var dividend divisor ;;
  okx (q =? quotient) file line ~;;
  r <~ u64mod_var dividend divisor ;;
  okx (r =? remainder) file line.

Definition u64divmod_ok (dividend divisor quotient remainder line : Z)
  : T unit :=
  u64divmod_okx (to_u64 dividend) (to_u64 divisor) (to_u64 quotient)
                (to_u64 remainder) FILE line.

Definition s64divmod_okx (dividend divisor quotient remainder : Z)
  (file : string) (line : Z) : T unit :=
  p <~ defined (s64_mul divisor quotient) ;;
  s <~ defined (s64_add p remainder) ;;
  okx (s =? dividend) file line ~;;
  q <~ s64div_var dividend divisor ;;
  okx (q =? quotient) file line ~;;
  r <~ s64mod_var dividend divisor ;;
  okx (r =? remainder) file line.

Definition s64divmod_ok (dividend divisor quotient remainder line : Z)
  : T unit :=
  s64divmod_okx (to_s64 dividend) (to_s64 divisor) (to_s64 quotient)
                (to_s64 remainder) FILE line.

Definition math_test_exec : T unit :=
  flsl_ok (to_long LONG_BITS 0) 0 245 ~;;
  flsl_ok (to_long LONG_BITS 1) 1 246 ~;;
  flsl_ok (to_long LONG_BITS 255) 8 247 ~;;
  flsl_ok (to_long LONG_BITS 256) 9 248 ~;;
  flsl_ok (to_long LONG_BITS 257) 9 249 ~;;
  flsl_ok (to_long LONG_BITS 0x69505845) 31 250 ~;;
  flsl_ok (to_long LONG_BITS (to_uint (-1))) (8 * 4) 251 ~;;
  flsl_ok (to_long LONG_BITS (to_ulong LONG_BITS (-1)))
          (8 * (LONG_BITS / 8)) 252 ~;;
  u64divmod_ok 0x2b90ddccf699f765 0xed9f5e73 0x2eef6ab4 0x0e12f089 263 ~;;
  s64divmod_ok 0x2b90ddccf699f765 0xed9f5e73 0x2eef6ab4 0x0e12f089 265 ~;;
  u64divmod_ok 0xc09e00dcb9e34b54 0x35968185cdc744f3
               3 0x1fda7c4b508d7c7b 267 ~;;
  s64divmod_ok (- 0x3f61ff23461cb4ac) 0x35968185cdc744f3
               (-1) (- 0x9cb7d9d78556fb9) 269 ~;;
  u64divmod_ok 0 0x5b2f2737f4ff 0 0 271 ~;;
  s64divmod_ok 0 0xbb00ded72766207f 0 0 272 ~;;
  ok (isqrt 0 =? 0) 275 ~;;
  ok (isqrt 1 =? 1) 276 ~;;
  ok (isqrt 255 =? 15) 277 ~;;
  ok (isqrt 256 =? 16) 278 ~;;
  ok (isqrt 257 =? 16) 279 ~;;
  ok (isqrt 0xa53df2ad =? 52652) 280 ~;;
  ok (isqrt 0x123793c6 =? 17482) 281 ~;;
  ok (isqrt (to_ulong LONG_BITS (-1))
      =? Z.shiftr (to_ulong LONG_BITS (-1)) (8 * (LONG_BITS / 8) / 2)) 282.

End MathTest.

(** A harness that has seen nothing yet. *)
Definition fresh : harness := {| reports := []; stack_checks := 0 |}.

(** [m] runs to the end from every harness and adds [k] checks, all of
    them passed, and only assertions that hold. *)
Definition passing (k : nat) (m : T unit) : Prop :=
  forall h : harness,
  exists (h' : harness) (held : list bool),
    m h = Some (tt, h')
    /\ successes (reports h') = successes (reports h) ++ repeat true k
    /\ assertions (reports h') = assertions (reports h) ++ held
    /\ forallb (fun c : bool => c) held = true.

(** * Keyboard mappings (hci/keymap) *)

Definition it_mapping : list key_mapping :=
  [ {| from := 0x1e; to := 0x36 |}; {| from := 0x26; to := 0x2f |};
    {| from := 0x28; to := 0x29 |}; {| from := 0x29; to := 0x3d |};
    {| from := 0x2a; to := 0x28 |}; {| from := 0x2b; to := 0x5e |};
    {| from := 0x2d; to := 0x27 |}; {| from := 0x2f; to := 0x2d |};
    {| from := 0x3c; to := 0x3b |}; {| from := 0x3e; to := 0x3a |};
    {| from := 0x3f; to := 0x5f |}; {| from := 0x40; to := 0x22 |};
    {| from := 0x5d; to := 0x2b |}; {| from := 0x5e; to := 0x26 |};
    {| from := 0x5f; to := 0x3f |}; {| from := 0x60; to := 0x5c |};
    {| from := 0x7d; to := 0x2a |}; {| from := 0x7e; to := 0x7c |} ].

Definition no_latin1_mapping : list key_mapping :=
  [ {| from := 0x1d; to := 0x1e |}; {| from := 0x26; to := 0x2f |};
    {| from := 0x28; to := 0x29 |}; {| from := 0x29; to := 0x3d |};
    {| from := 0x2a; to := 0x28 |}; {| from := 0x2b; to := 0x60 |};
    {| from := 0x2d; to := 0x2b |}; {| from := 0x2f; to := 0x2d |};
    {| from := 0x3c; to := 0x3b |}; {| from := 0x3d; to := 0x5c |};
    {| from := 0x3e; to := 0x3a |}; {| from := 0x3f; to := 0x5f |};
    {| from := 0x40; to := 0x22 |}; {| from := 0x5c; to := 0x27 |};
    {| from := 0x5d; to := 0x7e |}; {| from := 0x5e; to := 0x26 |};
    {| from := 0x5f; to := 0x3f |}; {| from := 0x60; to := 0x7c |};
    {| from := 0x7c; to := 0x2a |}; {| from := 0x7d; to := 0x5e |} ].

(** ** Bit-field lemmas *)

Lemma land_ones_small (x k : Z) :
  0 <= k -> 0 <= x < 2 ^ k -> Z.land x (Z.ones k) = x.
Proof.
  intros Hk Hx. rewrite Z.land_ones by assumption.
  apply Z.mod_small; assumption.
Qed.

Lemma shiftr_small (x k m : Z) :
  0 <= k <= m -> 0 <= x < 2 ^ k -> Z.shiftr x m = 0.
Proof.
  intros Hk Hx. rewrite Z.shiftr_div_pow2 by lia.
  apply Z.div_small. split; [lia|].
  apply Z.lt_le_trans with (2 ^ k); [lia|].
  apply Z.pow_le_mono_r; lia.
Qed.

Lemma land_shiftl_ones (x k n : Z) :
  0 <= k <= n -> Z.land (Z.shiftl x n) (Z.ones k) = 0.
Proof.
  intros H. rewrite Z.land_ones by lia.
  rewrite Z.shiftl_mul_pow2 by lia.
  replace n with ((n - k) + k) by lia.
  rewrite Z.pow_add_r by lia.
  rewrite Z.mul_assoc. apply Z.mod_mul.
  apply Z.pow_nonzero; lia.
Qed.

Lemma shiftr_shiftl_same (x n : Z) :
  0 <= n -> Z.shiftr (Z.shiftl x n) n = x.
Proof.
  intros H. rewrite Z.shiftr_shiftl_l by lia.
  rewrite Z.sub_diag. apply Z.shiftl_0_r.
Qed.

Lemma land_ones_bound (x k : Z) :
  0 <= k -> 0 <= Z.land x (Z.ones k) < 2 ^ k.
Proof.
  intros H. rewrite Z.land_ones by assumption.
  apply Z.mod_pos_bound. apply Z.pow_pos_nonneg; lia.
Qed.

(** ** The location macros *)

Lemma EFIPCI_OFFSET_LOCATION (offset width : Z) :
  0 <= offset < 2 ^ 16 ->
  EFIPCI_OFFSET (EFIPCI_LOCATION offset width) = offset.
Proof.
  intros H. unfold EFIPCI_OFFSET, EFIPCI_LOCATION.
  change 0xffff with (Z.ones 16).
  rewrite Z.land_lor_distr_l.
  rewrite land_ones_small by lia.
  rewrite land_shiftl_ones by lia.
  apply Z.lor_0_r.
Qed.

Lemma EFIPCI_WIDTH_LOCATION (offset width : Z) :
  0 <= offset < 2 ^ 16 ->
  EFIPCI_WIDTH (EFIPCI_LOCATION offset width) = width.
Proof.
  intros H. unfold EFIPCI_WIDTH, EFIPCI_LOCATION.
  rewrite Z.shiftr_lor.
  rewrite (shiftr_small offset 16 16) by lia.
  rewrite shiftr_shiftl_same by lia.
  apply Z.lor_0_l.
Qed.

Lemma EFIPCI_OFFSET_bound (location : Z) :
  0 <= EFIPCI_OFFSET location < 2 ^ 16.
Proof.
  unfold EFIPCI_OFFSET. change 0xffff with (Z.ones 16).
  apply land_ones_bound; lia.
Qed.

(** The offset depends on the low sixteen bits of the location only. *)
Lemma EFIPCI_OFFSET_low (location : Z) :
  EFIPCI_OFFSET (Z.land location 0xffff) = EFIPCI_OFFSET location.
Proof.
  unfold EFIPCI_OFFSET. rewrite <- Z.land_assoc. reflexivity.
Qed.

(** ** The bus/device/function macros *)

Lemma PCI_BUS_bound (b : Z) : 0 <= PCI_BUS b <= 255.
Proof.
  pose proof (land_ones_bound (Z.shiftr b 8) 8) as H.
  change (Z.ones 8) with 0xff in H. change (2 ^ 8) with 256 in H.
  unfold PCI_BUS. lia.
Qed.

Lemma PCI_SLOT_bound (b : Z) : 0 <= PCI_SLOT b <= 31.
Proof.
  pose proof (land_ones_bound (Z.shiftr b 3) 5) as H.
  change (Z.ones 5) with 0x1f in H. change (2 ^ 5) with 32 in H.
  unfold PCI_SLOT. lia.
Qed.

Lemma PCI_FUNC_bound (b : Z) : 0 <= PCI_FUNC b <= 7.
Proof.
  pose proof (land_ones_bound (Z.shiftr b 0) 3) as H.
  change (Z.ones 3) with 0x07 in H. change (2 ^ 3) with 8 in H.
  unfold PCI_FUNC. lia.
Qed.

Section Locator.

Variables bus slot func : Z.
Hypothesis bus_range : 0 <= bus <= 255.
Hypothesis slot_range : 0 <= slot <= 31.
Hypothesis func_range : 0 <= func <= 7.

Lemma PCI_BUS_BUSDEVFN : PCI_BUS (PCI_BUSDEVFN bus slot func) = bus.
Proof.
  unfold PCI_BUS, PCI_BUSDEVFN. change 0xff with (Z.ones 8).
  rewrite !Z.shiftr_lor, Z.shiftl_0_r.
  rewrite shiftr_shiftl_same by lia.
  rewrite Z.shiftr_shiftl_r by lia.
  rewrite (shiftr_small slot 5 (8 - 3)) by lia.
  rewrite (shiftr_small func 3 8) by lia.
  rewrite !Z.lor_0_r. apply land_ones_small; lia.
Qed.

Lemma PCI_SLOT_BUSDEVFN : PCI_SLOT (PCI_BUSDEVFN bus slot func) = slot.
Proof.
  unfold PCI_SLOT, PCI_BUSDEVFN. change 0x1f with (Z.ones 5).
  rewrite !Z.shiftr_lor, Z.shiftl_0_r.
  rewrite shiftr_shiftl_same by lia.
  rewrite Z.shiftr_shiftl_l by lia.
  rewrite (shiftr_small func 3 3) by lia.
  rewrite Z.lor_0_r, Z.land_lor_distr_l.
  rewrite land_shiftl_ones by lia.
  rewrite Z.lor_0_l. apply land_ones_small; lia.
Qed.

Lemma PCI_FUNC_BUSDEVFN : PCI_FUNC (PCI_BUSDEVFN bus slot func) = func.
Proof.
  unfold PCI_FUNC, PCI_BUSDEVFN. change 0x07 with (Z.ones 3).
  rewrite Z.shiftr_0_r, Z.shiftl_0_r, !Z.land_lor_distr_l.
  rewrite !land_shiftl_ones by lia.
  rewrite Z.lor_0_l. apply land_ones_small; lia.
Qed.

End Locator.

(** ** The Config Address layout *)

Section Fields.

Variables bus dev func reg : Z.
Hypothesis bus_range : 0 <= bus <= 255.
Hypothesis dev_range : 0 <= dev <= 31.
Hypothesis func_range : 0 <= func <= 7.
Hypothesis reg_range : 0 <= reg <= 255.

Lemma EFI_PCI_ADDRESS_bus :
  Z.land (Z.shiftr (EFI_PCI_ADDRESS bus dev func reg) 24) 0xff = bus.
Proof.
  unfold EFI_PCI_ADDRESS. change 0xff with (Z.ones 8).
  rewrite !Z.shiftr_lor.
  rewrite (shiftr_shiftl_same bus 24) by lia.
  rewrite (Z.shiftr_shiftl_r dev 16 24) by lia.
  rewrite (Z.shiftr_shiftl_r func 8 24) by lia.
  rewrite (shiftr_small dev 5 (24 - 16)) by lia.
  rewrite (shiftr_small func 3 (24 - 8)) by lia.
  rewrite (shiftr_small reg 8 24) by lia.
  rewrite !Z.lor_0_r. apply land_ones_small; lia.
Qed.

Lemma EFI_PCI_ADDRESS_dev :
  Z.land (Z.shiftr (EFI_PCI_ADDRESS bus dev func reg) 16) 0x1f = dev.
Proof.
  unfold EFI_PCI_ADDRESS. change 0x1f with (Z.ones 5).
  rewrite !Z.shiftr_lor.
  rewrite (Z.shiftr_shiftl_l bus 24 16) by lia.
  rewrite (shiftr_shiftl_same dev 16) by lia.
  rewrite (Z.shiftr_shiftl_r func 8 16) by lia.
  rewrite (shiftr_small func 3 (16 - 8)) by lia.
  rewrite (shiftr_small reg 8 16) by lia.
  rewrite !Z.lor_0_r, Z.land_lor_distr_l.
  rewrite land_shiftl_ones by lia.
  rewrite Z.lor_0_l. apply land_ones_small; lia.
Qed.

Lemma EFI_PCI_ADDRESS_func :
  Z.land (Z.shiftr (EFI_PCI_ADDRESS bus dev func reg) 8) 0x07 = func.
Proof.
  unfold EFI_PCI_ADDRESS. change 0x07 with (Z.ones 3).
  rewrite !Z.shiftr_lor.
  rewrite (Z.shiftr_shiftl_l bus 24 8) by lia.
  rewrite (Z.shiftr_shiftl_l dev 16 8) by lia.
  rewrite (shiftr_shiftl_same func 8) by lia.
  rewrite (shiftr_small reg 8 8) by lia.
  rewrite Z.lor_0_r, !Z.land_lor_distr_l.
  rewrite !land_shiftl_ones by lia.
  rewrite Z.lor_0_l. apply land_ones_small; lia.
Qed.

Lemma EFI_PCI_ADDRESS_reg :
  Z.land (EFI_PCI_ADDRESS bus dev func reg) 0xff = reg.
Proof.
  unfold EFI_PCI_ADDRESS. change 0xff with (Z.ones 8).
  rewrite !Z.land_lor_distr_l.
  rewrite !land_shiftl_ones by lia.
  rewrite !Z.lor_0_l. apply land_ones_small; lia.
Qed.

Lemma efipci_decode_EFI_PCI_ADDRESS :
  efipci_decode (EFI_PCI_ADDRESS bus dev func reg) = (bus, dev, func, reg).
Proof.
  unfold efipci_decode.
  rewrite EFI_PCI_ADDRESS_bus, EFI_PCI_ADDRESS_dev,
    EFI_PCI_ADDRESS_func, EFI_PCI_ADDRESS_reg.
  reflexivity.
Qed.

End Fields.

(** With the locator fields masked as the macros mask them and an
    offset below [2 ^ 16], the address fits in 32 bits, so the
    [unsigned long] arithmetic of the codec never wraps. *)
Lemma efipci_address_bound (pci : pci_device) (location : Z) :
  0 <= efipci_address pci location < 2 ^ 32.
Proof.
  unfold efipci_address, EFI_PCI_ADDRESS.
  pose proof (PCI_BUS_bound (busdevfn pci)) as Hb.
  pose proof (PCI_SLOT_bound (busdevfn pci)) as Hs.
  pose proof (PCI_FUNC_bound (busdevfn pci)) as Hf.
  pose proof (EFIPCI_OFFSET_bound location) as Ho.
  set (b := PCI_BUS _) in *. set (s := PCI_SLOT _) in *.
  set (f := PCI_FUNC _) in *. set (o := EFIPCI_OFFSET _) in *.
  assert (Hsh : forall x n k, 0 <= n -> 0 <= k -> 0 <= x < 2 ^ k ->
                              0 <= Z.shiftl x n < 2 ^ (k + n)).
  { intros x n k Hn Hk Hx. rewrite Z.shiftl_mul_pow2 by lia.
    rewrite Z.pow_add_r by lia.
    assert (0 < 2 ^ n) by (apply Z.pow_pos_nonneg; lia). nia. }
  assert (Hlor : forall x y, 0 <= x < 2 ^ 32 -> 0 <= y < 2 ^ 32 ->
                             0 <= Z.lor x y < 2 ^ 32).
  { intros x y Hx Hy. split.
    - apply Z.lor_nonneg; lia.
    - destruct (Z.eq_dec (Z.lor x y) 0) as [E|E]; [rewrite E; lia|].
      apply Z.log2_lt_pow2; [pose proof (Z.lor_nonneg x y); lia|].
      rewrite Z.log2_lor by lia.
      apply Z.max_lub_lt.
      + destruct (Z.eq_dec x 0); [subst; simpl; lia|].
        apply Z.log2_lt_pow2; lia.
      + destruct (Z.eq_dec y 0); [subst; simpl; lia|].
        apply Z.log2_lt_pow2; lia. }
  pose proof (Hsh b 24 8 ltac:(lia) ltac:(lia) ltac:(simpl; lia)) as H1.
  pose proof (Hsh s 16 5 ltac:(lia) ltac:(lia) ltac:(simpl; lia)) as H2.
  pose proof (Hsh f 8 3 ltac:(lia) ltac:(lia) ltac:(simpl; lia)) as H3.
  simpl Z.add in H1, H2, H3.
  assert (2 ^ 21 < 2 ^ 32) by (simpl; lia).
  assert (2 ^ 11 < 2 ^ 32) by (simpl; lia).
  assert (2 ^ 16 < 2 ^ 32) by (simpl; lia).
  repeat apply Hlor; lia.
Qed.

(** ** Running the driver *)

Section Run.

Context {FW : Type}.
Variable efipci : EFI_PCI_ROOT_BRIDGE_IO_PROTOCOL FW.
Variable EIO : Z.
Variable efi_strerror : EFI_STATUS -> string.
Variable pci : pci_device.
Variables location value : Z.
Variable w : world FW.

(** A successful read: one transaction, nothing logged, result 0. *)
Lemma efipci_read_ok (buffer : Z) (fw' : FW) :
  Pci_Read efipci (firmware w) (EFIPCI_WIDTH location)
           (efipci_address pci location) 1 value = (0, buffer, fw') ->
  efipci_read efipci EIO efi_strerror pci location value w =
    ((0, buffer),
     {| firmware := fw';
        trace := trace w ++ [PciRead (EFIPCI_WIDTH location)
                                     (efipci_address pci location) 1] |}).
Proof.
  intros H. unfold efipci_read, bind, call_Pci_Read.
  rewrite H. reflexivity.
Qed.

(** A failed read: one transaction, one message, result [-EIO]. *)
Lemma efipci_read_fail (efirc buffer : Z) (fw' : FW) :
  Pci_Read efipci (firmware w) (EFIPCI_WIDTH location)
           (efipci_address pci location) 1 value = (efirc, buffer, fw') ->
  efirc <> 0 ->
  efipci_read efipci EIO efi_strerror pci location value w =
    ((- EIO, buffer),
     {| firmware := fw';
        trace := (trace w ++ [PciRead (EFIPCI_WIDTH location)
                                      (efipci_address pci location) 1])
                 ++ [Dbg ("EFIPCI config read from " ++ PCI_FMT
                          ++ " offset %02lx " ++ "failed: %s" ++ newline)
                         (PCI_ARGS pci
                          ++ [ArgHex (EFIPCI_OFFSET location);
                              ArgStr (efi_strerror efirc)])] |}).
Proof.
  intros H Hne. unfold efipci_read, bind, call_Pci_Read.
  rewrite H. apply Z.eqb_neq in Hne. rewrite Hne. reflexivity.
Qed.

Lemma efipci_write_ok (fw' : FW) :
  Pci_Write efipci (firmware w) (EFIPCI_WIDTH location)
            (efipci_address pci location) 1 value = (0, fw') ->
  efipci_write efipci EIO efi_strerror pci location value w =
    (0, {| firmware := fw';
           trace := trace w ++ [PciWrite (EFIPCI_WIDTH location)
                                         (efipci_address pci location)
                                         1 value] |}).
Proof.
  intros H. unfold efipci_write, bind, call_Pci_Write.
  rewrite H. reflexivity.
Qed.

Lemma efipci_write_fail (efirc : Z) (fw' : FW) :
  Pci_Write efipci (firmware w) (EFIPCI_WIDTH location)
            (efipci_address pci location) 1 value = (efirc, fw') ->
  efirc <> 0 ->
  efipci_write efipci EIO efi_strerror pci location value w =
    (- EIO,
     {| firmware := fw';
        trace := (trace w ++ [PciWrite (EFIPCI_WIDTH location)
                                       (efipci_address pci location)
                                       1 value])
                 ++ [Dbg ("EFIPCI config write to " ++ PCI_FMT
                          ++ " offset %02lx " ++ "failed: %s" ++ newline)
                         (PCI_ARGS pci
                          ++ [ArgHex (EFIPCI_OFFSET location);
                              ArgStr (efi_strerror efirc)])] |}).
Proof.
  intros H Hne. unfold efipci_write, bind, call_Pci_Write.
  rewrite H. apply Z.eqb_neq in Hne. rewrite Hne. reflexivity.
Qed.

End Run.

Lemma skipn_length_app {A : Type} (l l' : list A) :
  skipn (List.length l) (l ++ l') = l'.
Proof.
  induction l as [|a l IH]; simpl; [reflexivity | exact IH].
Qed.

(** ** One call, seen from the caller *)

Section Call.

Context {FW : Type}.
Variable efipci : EFI_PCI_ROOT_BRIDGE_IO_PROTOCOL FW.
Variable EIO : Z.
Variable efi_strerror : EFI_STATUS -> string.
Variable pci : pci_device.
Variables location value : Z.
Variable w : world FW.

(** What the firmware answers to the read and to the write that the
    driver issues from the world [w]. *)
Variables rd_rc buffer : Z.
Variable rd_fw : FW.
Variable wr_rc : Z.
Variable wr_fw : FW.
Hypothesis firmware_read :
  Pci_Read efipci (firmware w) (EFIPCI_WIDTH location)
           (efipci_address pci location) 1 value = (rd_rc, buffer, rd_fw).
Hypothesis firmware_write :
  Pci_Write efipci (firmware w) (EFIPCI_WIDTH location)
            (efipci_address pci location) 1 value = (wr_rc, wr_fw).

(** Error numbers are never zero. *)
Hypothesis EIO_nonzero : EIO <> 0.

Lemma efipci_read_rc :
  fst (fst (efipci_read efipci EIO efi_strerror pci location value w))
  = if rd_rc =? 0 then 0 else - EIO.
Proof using firmware_read.
  destruct (Z.eqb_spec rd_rc 0) as [E|E].
  - subst rd_rc. rewrite (efipci_read_ok _ _ _ _ _ _ _ _ _ firmware_read).
    reflexivity.
  - rewrite (efipci_read_fail _ _ _ _ _ _ _ _ _ _ firmware_read E).
    reflexivity.
Qed.

Lemma efipci_read_buffer :
  snd (fst (efipci_read efipci EIO efi_strerror pci location value w))
  = buffer.
Proof using firmware_read.
  destruct (Z.eq_dec rd_rc 0) as [E|E].
  - subst rd_rc. rewrite (efipci_read_ok _ _ _ _ _ _ _ _ _ firmware_read).
    reflexivity.
  - rewrite (efipci_read_fail _ _ _ _ _ _ _ _ _ _ firmware_read E).
    reflexivity.
Qed.

Lemma efipci_write_rc :
  fst (efipci_write efipci EIO efi_strerror pci location value w)
  = if wr_rc =? 0 then 0 else - EIO.
Proof using firmware_write.
  destruct (Z.eqb_spec wr_rc 0) as [E|E].
  - subst wr_rc. rewrite (efipci_write_ok _ _ _ _ _ _ _ _ firmware_write).
    reflexivity.
  - rewrite (efipci_write_fail _ _ _ _ _ _ _ _ _ firmware_write E).
    reflexivity.
Qed.

(** C1 (as amended): when the firmware answers "not found", both
    [efipci_read] and [efipci_write] return the generic I/O error
    [-EIO], as for every other non-zero status; whatever the firmware
    answers, the result is either 0 or [-EIO], so no status is turned
    into a separate "no device" error. *)
Theorem efipci_not_found_is_EIO :
  (rd_rc = EFI_NOT_FOUND ->
   fst (fst (efipci_read efipci EIO efi_strerror pci location value w))
   = - EIO)
  /\ (wr_rc = EFI_NOT_FOUND ->
      fst (efipci_write efipci EIO efi_strerror pci location value w)
      = - EIO)
  /\ (fst (fst (efipci_read efipci EIO efi_strerror pci location value w))
      = 0
      \/ fst (fst (efipci_read efipci EIO efi_strerror pci location value w))
         = - EIO)
  /\ (fst (efipci_write efipci EIO efi_strerror pci location value w) = 0
      \/ fst (efipci_write efipci EIO efi_strerror pci location value w)
         = - EIO).
Proof using firmware_read firmware_write.
  rewrite efipci_read_rc, efipci_write_rc.
  repeat split.
  - intros ->. reflexivity.
  - intros ->. reflexivity.
  - destruct (rd_rc =? 0); [left | right]; reflexivity.
  - destruct (wr_rc =? 0); [left | right]; reflexivity.
Qed.

(** C2: the result handed to the caller is 0 exactly when the firmware
    reports status 0, for reads and for writes; a firmware failure
    comes back as [-EIO], and the buffer of a read holds what the
    firmware left in it, never a value put there by the driver. *)
Theorem efipci_success_iff_firmware_success :
  (fst (fst (efipci_read efipci EIO efi_strerror pci location value w)) = 0
   <-> rd_rc = 0)
  /\ (rd_rc <> 0 ->
      fst (fst (efipci_read efipci EIO efi_strerror pci location value w))
      = - EIO)
  /\ snd (fst (efipci_read efipci EIO efi_strerror pci location value w))
     = buffer
  /\ (fst (efipci_write efipci EIO efi_strerror pci location value w) = 0
      <-> wr_rc = 0)
  /\ (wr_rc <> 0 ->
      fst (efipci_write efipci EIO efi_strerror pci location value w)
      = - EIO).
Proof using firmware_read firmware_write EIO_nonzero.
  rewrite efipci_read_rc, efipci_write_rc, efipci_read_buffer.
  destruct (Z.eqb_spec rd_rc 0) as [Er|Er];
    destruct (Z.eqb_spec wr_rc 0) as [Ew|Ew];
    repeat split; intros; try reflexivity; try assumption; try lia.
Qed.

(** C3: a firmware status that is neither success nor "not found" is
    returned as [-EIO], for reads and for writes, and [-EIO] is not the
    success result. *)
Theorem efipci_other_status_is_EIO :
  (rd_rc <> 0 -> rd_rc <> EFI_NOT_FOUND ->
   fst (fst (efipci_read efipci EIO efi_strerror pci location value w))
   = - EIO
   /\ fst (fst (efipci_read efipci EIO efi_strerror pci location value w))
      <> 0)
  /\ (wr_rc <> 0 -> wr_rc <> EFI_NOT_FOUND ->
      fst (efipci_write efipci EIO efi_strerror pci location value w)
      = - EIO
      /\ fst (efipci_write efipci EIO efi_strerror pci location value w)
         <> 0).
Proof using firmware_read firmware_write EIO_nonzero.
  rewrite efipci_read_rc, efipci_write_rc.
  split; intros Hne _.
  - apply Z.eqb_neq in Hne. rewrite Hne. split; [reflexivity | lia].
  - apply Z.eqb_neq in Hne. rewrite Hne. split; [reflexivity | lia].
Qed.

End Call.

(** ** What a call does to the outside *)

Section Outside.

Context {FW : Type}.
Variable efipci : EFI_PCI_ROOT_BRIDGE_IO_PROTOCOL FW.
Variable EIO : Z.
Variable efi_strerror : EFI_STATUS -> string.
Variable pci : pci_device.
Variables location value : Z.
Variable w : world FW.

Lemma efipci_read_transactions :
  transactions
    (emitted (efipci_read efipci EIO efi_strerror pci location value) w)
  = [PciRead (EFIPCI_WIDTH location) (efipci_address pci location) 1].
Proof.
  unfold emitted.
  destruct (Pci_Read efipci (firmware w) (EFIPCI_WIDTH location)
              (efipci_address pci location) 1 value)
    as [[efirc buffer] fw'] eqn:E.
  destruct (Z.eq_dec efirc 0) as [Z0|NZ].
  - subst efirc. rewrite (efipci_read_ok _ _ _ _ _ _ _ _ _ E). simpl.
    rewrite skipn_length_app. reflexivity.
  - rewrite (efipci_read_fail _ _ _ _ _ _ _ _ _ _ E NZ). simpl.
    rewrite <- app_assoc, skipn_length_app. reflexivity.
Qed.

Lemma efipci_write_transactions :
  transactions
    (emitted (efipci_write efipci EIO efi_strerror pci location value) w)
  = [PciWrite (EFIPCI_WIDTH location) (efipci_address pci location)
              1 value].
Proof.
  unfold emitted.
  destruct (Pci_Write efipci (firmware w) (EFIPCI_WIDTH location)
              (efipci_address pci location) 1 value)
    as [efirc fw'] eqn:E.
  destruct (Z.eq_dec efirc 0) as [Z0|NZ].
  - subst efirc. rewrite (efipci_write_ok _ _ _ _ _ _ _ _ E). simpl.
    rewrite skipn_length_app. reflexivity.
  - rewrite (efipci_write_fail _ _ _ _ _ _ _ _ _ E NZ). simpl.
    rewrite <- app_assoc, skipn_length_app. reflexivity.
Qed.

Lemma efipci_read_firmware :
  firmware (snd (efipci_read efipci EIO efi_strerror pci location value w))
  = snd (Pci_Read efipci (firmware w) (EFIPCI_WIDTH location)
                  (efipci_address pci location) 1 value).
Proof.
  destruct (Pci_Read efipci (firmware w) (EFIPCI_WIDTH location)
              (efipci_address pci location) 1 value)
    as [[efirc buffer] fw'] eqn:E.
  destruct (Z.eq_dec efirc 0) as [Z0|NZ].
  - subst efirc. rewrite (efipci_read_ok _ _ _ _ _ _ _ _ _ E). reflexivity.
  - rewrite (efipci_read_fail _ _ _ _ _ _ _ _ _ _ E NZ). reflexivity.
Qed.

Lemma efipci_write_firmware :
  firmware (snd (efipci_write efipci EIO efi_strerror pci location value w))
  = snd (Pci_Write efipci (firmware w) (EFIPCI_WIDTH location)
                   (efipci_address pci location) 1 value).
Proof.
  destruct (Pci_Write efipci (firmware w) (EFIPCI_WIDTH location)
              (efipci_address pci location) 1 value)
    as [efirc fw'] eqn:E.
  destruct (Z.eq_dec efirc 0) as [Z0|NZ].
  - subst efirc. rewrite (efipci_write_ok _ _ _ _ _ _ _ _ E). reflexivity.
  - rewrite (efipci_write_fail _ _ _ _ _ _ _ _ _ E NZ). reflexivity.
Qed.

(** C7: a read or a write is exactly one firmware transaction, of the
    width carried by the location and with a count of 1, whatever
    status the firmware returns: the transactions added to the trace
    are that single one, and the firmware is left in the state one
    invocation of the service leaves it in (nothing is retried, nothing
    is split). *)
Theorem efipci_single_transaction :
  transactions
    (emitted (efipci_read efipci EIO efi_strerror pci location value) w)
  = [PciRead (EFIPCI_WIDTH location) (efipci_address pci location) 1]
  /\ firmware
       (snd (efipci_read efipci EIO efi_strerror pci location value w))
     = snd (Pci_Read efipci (firmware w) (EFIPCI_WIDTH location)
                     (efipci_address pci location) 1 value)
  /\ transactions
       (emitted (efipci_write efipci EIO efi_strerror pci location value) w)
     = [PciWrite (EFIPCI_WIDTH location) (efipci_address pci location)
                 1 value]
  /\ firmware
       (snd (efipci_write efipci EIO efi_strerror pci location value w))
     = snd (Pci_Write efipci (firmware w) (EFIPCI_WIDTH location)
                      (efipci_address pci location) 1 value).
Proof.
  repeat split.
  - apply efipci_read_transactions.
  - apply efipci_read_firmware.
  - apply efipci_write_transactions.
  - apply efipci_write_firmware.
Qed.

(** C8 (as amended): when the firmware returns a non-zero status, the
    call leaves exactly one debug message behind, after the transaction
    and by the time [-EIO] is returned; the message carries the bus,
    device and function of the Device Locator, the register offset and
    the text of the firmware status.  The access width is not among its
    arguments. *)
Theorem efipci_failure_logged (rd_rc buffer : Z) (rd_fw : FW)
  (wr_rc : Z) (wr_fw : FW) :
  Pci_Read efipci (firmware w) (EFIPCI_WIDTH location)
           (efipci_address pci location) 1 value = (rd_rc, buffer, rd_fw) ->
  Pci_Write efipci (firmware w) (EFIPCI_WIDTH location)
            (efipci_address pci location) 1 value = (wr_rc, wr_fw) ->
  (rd_rc <> 0 ->
   efipci_read efipci EIO efi_strerror pci location value w
   = ((- EIO, buffer),
      {| firmware := rd_fw;
         trace := trace w
                  ++ [PciRead (EFIPCI_WIDTH location)
                              (efipci_address pci location) 1;
                      Dbg ("EFIPCI config read from PCI %02x:%02x.%x"
                           ++ " offset %02lx failed: %s" ++ newline)
                          [ArgHex (PCI_BUS (busdevfn pci));
                           ArgHex (PCI_SLOT (busdevfn pci));
                           ArgHex (PCI_FUNC (busdevfn pci));
                           ArgHex (EFIPCI_OFFSET location);
                           ArgStr (efi_strerror rd_rc)]] |}))
  /\ (wr_rc <> 0 ->
      efipci_write efipci EIO efi_strerror pci location value w
      = (- EIO,
         {| firmware := wr_fw;
            trace := trace w
                     ++ [PciWrite (EFIPCI_WIDTH location)
                                  (efipci_address pci location) 1 value;
                         Dbg ("EFIPCI config write to PCI %02x:%02x.%x"
                              ++ " offset %02lx failed: %s" ++ newline)
                             [ArgHex (PCI_BUS (busdevfn pci));
                              ArgHex (PCI_SLOT (busdevfn pci));
                              ArgHex (PCI_FUNC (busdevfn pci));
                              ArgHex (EFIPCI_OFFSET location);
                              ArgStr (efi_strerror wr_rc)]] |})).
Proof.
  intros Hr Hw. split; intros NZ.
  - rewrite (efipci_read_fail _ _ _ _ _ _ _ _ _ _ Hr NZ).
    rewrite <- app_assoc. reflexivity.
  - rewrite (efipci_write_fail _ _ _ _ _ _ _ _ _ Hw NZ).
    rewrite <- app_assoc. reflexivity.
Qed.

End Outside.

(** C4: for a location built from an offset and a width, the Config
    Address is computed from the offset alone, with the width tag
    stripped, and the width reaches the firmware as an argument of its
    own, next to that address: this is the transaction a read and a
    write issue. *)
Theorem efipci_width_passed_separately {FW : Type}
  (efipci : EFI_PCI_ROOT_BRIDGE_IO_PROTOCOL FW) (EIO : Z)
  (efi_strerror : EFI_STATUS -> string) (pci : pci_device)
  (offset width value : Z) (w : world FW) :
  0 <= offset < 2 ^ 16 ->
  efipci_address pci (EFIPCI_LOCATION offset width)
  = EFI_PCI_ADDRESS (PCI_BUS (busdevfn pci)) (PCI_SLOT (busdevfn pci))
                    (PCI_FUNC (busdevfn pci)) offset
  /\ transactions
       (emitted (efipci_read efipci EIO efi_strerror pci
                             (EFIPCI_LOCATION offset width) value) w)
     = [PciRead width
                (EFI_PCI_ADDRESS (PCI_BUS (busdevfn pci))
                                 (PCI_SLOT (busdevfn pci))
                                 (PCI_FUNC (busdevfn pci)) offset) 1]
  /\ transactions
       (emitted (efipci_write efipci EIO efi_strerror pci
                              (EFIPCI_LOCATION offset width) value) w)
     = [PciWrite width
                 (EFI_PCI_ADDRESS (PCI_BUS (busdevfn pci))
                                  (PCI_SLOT (busdevfn pci))
                                  (PCI_FUNC (busdevfn pci)) offset) 1 value].
Proof.
  intros Ho.
  rewrite efipci_read_transactions, efipci_write_transactions.
  unfold efipci_address.
  rewrite EFIPCI_OFFSET_LOCATION, EFIPCI_WIDTH_LOCATION by assumption.
  repeat split.
Qed.

(** ** The address codec *)

Lemma efipci_address_LOCATION (pci : pci_device) (offset width : Z) :
  0 <= offset < 2 ^ 16 ->
  efipci_address pci (EFIPCI_LOCATION offset width)
  = EFI_PCI_ADDRESS (PCI_BUS (busdevfn pci)) (PCI_SLOT (busdevfn pci))
                    (PCI_FUNC (busdevfn pci)) offset.
Proof.
  intros H. unfold efipci_address.
  rewrite EFIPCI_OFFSET_LOCATION by assumption. reflexivity.
Qed.

Lemma efipci_decode_address (bus dev func offset width : Z) :
  0 <= bus <= 255 -> 0 <= dev <= 31 -> 0 <= func <= 7 ->
  0 <= offset <= 255 ->
  efipci_decode
    (efipci_address {| busdevfn := PCI_BUSDEVFN bus dev func |}
                    (EFIPCI_LOCATION offset width))
  = (bus, dev, func, offset).
Proof.
  intros Hb Hd Hf Ho.
  rewrite efipci_address_LOCATION by (simpl; lia). simpl busdevfn.
  rewrite PCI_BUS_BUSDEVFN, PCI_SLOT_BUSDEVFN, PCI_FUNC_BUSDEVFN
    by assumption.
  apply efipci_decode_EFI_PCI_ADDRESS; assumption.
Qed.

(** C5 (as amended): [efipci_address] checks nothing and always yields
    an address.  Bus, device and function are cut out of the packed
    [busdevfn] by masking, so what is encoded is always within 0-255,
    0-31 and 0-7; the register offset is encoded as it is given,
    whether or not it is a multiple of the access size: the register
    field of the address is the offset itself, not a rounded one. *)
Theorem efipci_address_unchecked (pci : pci_device) (offset width : Z) :
  0 <= offset <= 255 ->
  efipci_decode (efipci_address pci (EFIPCI_LOCATION offset width))
  = (PCI_BUS (busdevfn pci), PCI_SLOT (busdevfn pci),
     PCI_FUNC (busdevfn pci), offset)
  /\ 0 <= PCI_BUS (busdevfn pci) <= 255
  /\ 0 <= PCI_SLOT (busdevfn pci) <= 31
  /\ 0 <= PCI_FUNC (busdevfn pci) <= 7.
Proof.
  intros Ho.
  pose proof (PCI_BUS_bound (busdevfn pci)) as Hb.
  pose proof (PCI_SLOT_bound (busdevfn pci)) as Hs.
  pose proof (PCI_FUNC_bound (busdevfn pci)) as Hf.
  repeat split; try lia.
  rewrite efipci_address_LOCATION by (simpl; lia).
  apply efipci_decode_EFI_PCI_ADDRESS; assumption.
Qed.

(** C6: for a Device Locator with bus 0-255, device 0-31 and function
    0-7 and a register offset that fits the register field (0-255),
    aligned or not, decoding the address that [efipci_address] produces
    gives back bus, device, function and offset; hence two such inputs
    with the same address are the same input. *)
Theorem efipci_address_invertible
  (bus dev func offset width bus' dev' func' offset' width' : Z) :
  0 <= bus <= 255 -> 0 <= dev <= 31 -> 0 <= func <= 7 ->
  0 <= offset <= 255 ->
  0 <= bus' <= 255 -> 0 <= dev' <= 31 -> 0 <= func' <= 7 ->
  0 <= offset' <= 255 ->
  efipci_decode
    (efipci_address {| busdevfn := PCI_BUSDEVFN bus dev func |}
                    (EFIPCI_LOCATION offset width))
  = (bus, dev, func, offset)
  /\ (efipci_address {| busdevfn := PCI_BUSDEVFN bus dev func |}
                     (EFIPCI_LOCATION offset width)
      = efipci_address {| busdevfn := PCI_BUSDEVFN bus' dev' func' |}
                       (EFIPCI_LOCATION offset' width') ->
      (bus, dev, func, offset) = (bus', dev', func', offset')).
Proof.
  intros Hb Hd Hf Ho Hb' Hd' Hf' Ho'. split.
  - apply efipci_decode_address; assumption.
  - intros E.
    rewrite <- (efipci_decode_address bus dev func offset width)
      by assumption.
    rewrite <- (efipci_decode_address bus' dev' func' offset' width')
      by assumption.
    rewrite E. reflexivity.
Qed.

(** C9: [pci_max_bus] lies within the bus field of the Device Locator,
    0 to 255, and no bus number that [PCI_BUS] can yield exceeds it. *)
Theorem pci_max_bus_range :
  0 <= pci_max_bus <= 255
  /\ forall busdevfn : Z, PCI_BUS busdevfn <= pci_max_bus.
Proof.
  split.
  - unfold pci_max_bus. lia.
  - intros b. pose proof (PCI_BUS_bound b). unfold pci_max_bus. lia.
Qed.

(** C10: the Config Address does not depend on the width tag: two
    locations with the same width-stripped offset give the same
    address for the same device, and the address of a location is the
    address of its sixteen offset bits alone. *)
Theorem efipci_address_width_independent
  (pci : pci_device) (location location' : Z) :
  EFIPCI_OFFSET location = EFIPCI_OFFSET location' ->
  efipci_address pci location = efipci_address pci location'
  /\ efipci_address pci location
     = efipci_address pci (Z.land location 0xffff).
Proof.
  intros E. unfold efipci_address. split.
  - rewrite E. reflexivity.
  - rewrite EFIPCI_OFFSET_low. reflexivity.
Qed.

(** ** The scenarios of the design document, on the register file *)

Example read_vendor_id :
  fst (efipci_read register_file example_EIO example_strerror
         {| busdevfn := PCI_BUSDEVFN 0 0 0 |}
         (EFIPCI_LOCATION 0x00 EFIPCI_WIDTH_WORD) 0
         (boot (fun _ => 0x8086)))
  = (0, 0x8086).
Proof. reflexivity. Qed.

Example write_then_read_command :
  fst (efipci_read register_file example_EIO example_strerror
         {| busdevfn := PCI_BUSDEVFN 0 0 0 |}
         (EFIPCI_LOCATION 0x04 EFIPCI_WIDTH_WORD) 0
         (snd (efipci_write register_file example_EIO example_strerror
                 {| busdevfn := PCI_BUSDEVFN 0 0 0 |}
                 (EFIPCI_LOCATION 0x04 EFIPCI_WIDTH_WORD) 0x0007
                 (boot (fun _ => 0)))))
  = (0, 0x0007).
Proof. reflexivity. Qed.

Example address_of_example_device :
  efipci_address example_device (EFIPCI_LOCATION 0x10 EFIPCI_WIDTH_DWORD)
  = 0x03040510.
Proof. reflexivity. Qed.

(** ** Instances and counterexamples *)

(** C1, counterexample: on a firmware that answers "not found" to
    every access, a word read of offset 0 at bus 3, device 4, function
    5 returns [-EIO]; were it the "no device" error, [-EIO] would equal
    [-ENODEV] for every pair of distinct error numbers. *)
Lemma efipci_not_found_not_ENODEV :
  ~ (forall EIO ENODEV : Z, EIO <> ENODEV ->
     fst (fst (efipci_read (refusing_firmware EFI_NOT_FOUND) EIO
                 example_strerror example_device
                 (EFIPCI_LOCATION 0 EFIPCI_WIDTH_WORD) 0 (boot tt)))
     = - ENODEV).
Proof.
  intros H. specialize (H 5 19 ltac:(lia)).
  vm_compute in H. discriminate H.
Qed.

Lemma efipci_not_found_is_EIO_witness :
  Pci_Read (refusing_firmware EFI_NOT_FOUND) tt
    (EFIPCI_WIDTH (EFIPCI_LOCATION 0 EFIPCI_WIDTH_WORD))
    (efipci_address example_device (EFIPCI_LOCATION 0 EFIPCI_WIDTH_WORD))
    1 0 = (EFI_NOT_FOUND, 0, tt)
  /\ fst (fst (efipci_read (refusing_firmware EFI_NOT_FOUND) example_EIO
                 example_strerror example_device
                 (EFIPCI_LOCATION 0 EFIPCI_WIDTH_WORD) 0 (boot tt)))
     = - example_EIO
  /\ fst (efipci_write (refusing_firmware EFI_NOT_FOUND) example_EIO
            example_strerror example_device
            (EFIPCI_LOCATION 0 EFIPCI_WIDTH_WORD) 0 (boot tt))
     = - example_EIO.
Proof.
  pose proof (efipci_not_found_is_EIO
                (refusing_firmware EFI_NOT_FOUND) example_EIO
                example_strerror example_device
                (EFIPCI_LOCATION 0 EFIPCI_WIDTH_WORD) 0 (boot tt)
                EFI_NOT_FOUND 0 tt EFI_NOT_FOUND tt eq_refl eq_refl)
    as [Hr [Hw _]].
  split; [reflexivity | split; [apply Hr | apply Hw]; reflexivity].
Defined.

Lemma efipci_success_iff_firmware_success_witness :
  example_EIO <> 0
  /\ (fst (fst (efipci_read register_file example_EIO example_strerror
                  example_device (EFIPCI_LOCATION 0 EFIPCI_WIDTH_WORD) 0
                  (boot (fun _ => 0x8086)))) = 0
      <-> 0 = 0)
  /\ snd (fst (efipci_read register_file example_EIO example_strerror
                 example_device (EFIPCI_LOCATION 0 EFIPCI_WIDTH_WORD) 0
                 (boot (fun _ => 0x8086))))
     = 0x8086.
Proof.
  assert (NZ : example_EIO <> 0) by (unfold example_EIO; lia).
  pose proof (efipci_success_iff_firmware_success
                register_file example_EIO example_strerror example_device
                (EFIPCI_LOCATION 0 EFIPCI_WIDTH_WORD) 0
                (boot (fun _ => 0x8086))
                0 0x8086 (fun _ => 0x8086)
                0 (fun a => if a =? 0x03040500 then 0 else 0x8086)
                eq_refl eq_refl NZ)
    as [Hiff [_ [Hbuf _]]].
  split; [exact NZ | split; [exact Hiff | exact Hbuf]].
Defined.

Lemma efipci_other_status_is_EIO_witness :
  example_EIO <> 0
  /\ 7 <> 0 /\ 7 <> EFI_NOT_FOUND
  /\ fst (fst (efipci_read (refusing_firmware 7) example_EIO
                 example_strerror example_device
                 (EFIPCI_LOCATION 0 EFIPCI_WIDTH_WORD) 0 (boot tt)))
     = - example_EIO
  /\ fst (efipci_write (refusing_firmware 7) example_EIO
            example_strerror example_device
            (EFIPCI_LOCATION 0 EFIPCI_WIDTH_WORD) 0 (boot tt))
     = - example_EIO.
Proof.
  assert (NZ : example_EIO <> 0) by (unfold example_EIO; lia).
  assert (N0 : 7 <> 0) by lia.
  assert (NF : 7 <> EFI_NOT_FOUND) by (vm_compute; discriminate).
  pose proof (efipci_other_status_is_EIO
                (refusing_firmware 7) example_EIO example_strerror
                example_device (EFIPCI_LOCATION 0 EFIPCI_WIDTH_WORD) 0
                (boot tt) 7 0 tt 7 tt eq_refl eq_refl NZ)
    as [Hr Hw].
  split; [exact NZ|]. split; [exact N0|]. split; [exact NF|].
  split; [exact (proj1 (Hr N0 NF)) | exact (proj1 (Hw N0 NF))].
Defined.

Lemma efipci_width_passed_separately_witness :
  0 <= 0x10 < 2 ^ 16
  /\ efipci_address example_device
       (EFIPCI_LOCATION 0x10 EFIPCI_WIDTH_DWORD)
     = EFI_PCI_ADDRESS 3 4 5 0x10
  /\ transactions
       (emitted (efipci_read register_file example_EIO example_strerror
                   example_device
                   (EFIPCI_LOCATION 0x10 EFIPCI_WIDTH_DWORD) 0)
                (boot (fun _ => 0)))
     = [PciRead EFIPCI_WIDTH_DWORD (EFI_PCI_ADDRESS 3 4 5 0x10) 1].
Proof.
  assert (R : 0 <= 0x10 < 2 ^ 16) by (simpl; lia).
  pose proof (efipci_width_passed_separately
                register_file example_EIO example_strerror example_device
                0x10 EFIPCI_WIDTH_DWORD 0 (boot (fun _ => 0)) R)
    as [Ha [Hr _]].
  split; [exact R | split; [exact Ha | exact Hr]].
Defined.

(** C5, counterexample: a word access at offset 1 of bus 0, device 0,
    function 0.  The checking codec of the design document refuses it;
    [efipci_address] returns the address 1, and a read hands that
    address to the firmware. *)
Lemma efipci_address_takes_misaligned :
  spec_encode 0 0 0 0x01 EFIPCI_WIDTH_WORD = None
  /\ efipci_address {| busdevfn := PCI_BUSDEVFN 0 0 0 |}
       (EFIPCI_LOCATION 0x01 EFIPCI_WIDTH_WORD)
     = 1
  /\ emitted (efipci_read register_file example_EIO example_strerror
                {| busdevfn := PCI_BUSDEVFN 0 0 0 |}
                (EFIPCI_LOCATION 0x01 EFIPCI_WIDTH_WORD) 0)
             (boot (fun _ => 0))
     = [PciRead EFIPCI_WIDTH_WORD 1 1].
Proof. repeat split. Qed.

Lemma efipci_address_unchecked_witness :
  0 <= 0x01 <= 255
  /\ 0x01 mod width_bytes EFIPCI_WIDTH_WORD <> 0
  /\ efipci_decode
       (efipci_address example_device
          (EFIPCI_LOCATION 0x01 EFIPCI_WIDTH_WORD))
     = (3, 4, 5, 0x01).
Proof.
  assert (R : 0 <= 0x01 <= 255) by lia.
  split; [exact R|]. split; [vm_compute; discriminate|].
  exact (proj1 (efipci_address_unchecked example_device 0x01
                  EFIPCI_WIDTH_WORD R)).
Defined.

Lemma efipci_address_invertible_witness :
  efipci_decode
    (efipci_address {| busdevfn := PCI_BUSDEVFN 255 31 7 |}
                    (EFIPCI_LOCATION 0xfc EFIPCI_WIDTH_DWORD))
  = (255, 31, 7, 0xfc).
Proof.
  exact (proj1 (efipci_address_invertible
                  255 31 7 0xfc EFIPCI_WIDTH_DWORD
                  0 0 0 0 EFIPCI_WIDTH_BYTE
                  ltac:(lia) ltac:(lia) ltac:(lia) ltac:(lia)
                  ltac:(lia) ltac:(lia) ltac:(lia) ltac:(lia))).
Defined.

(** C8, counterexample: a failed word read and a failed dword read of
    offset 0x10 at bus 3, device 4, function 5 leave the same message:
    bus, device, function, offset and status text.  The width, 1 for
    the one and 2 for the other, is not in it. *)
Lemma efipci_log_omits_width :
  EFIPCI_WIDTH (EFIPCI_LOCATION 0x10 EFIPCI_WIDTH_WORD) = 1
  /\ EFIPCI_WIDTH (EFIPCI_LOCATION 0x10 EFIPCI_WIDTH_DWORD) = 2
  /\ messages
       (emitted (efipci_read (refusing_firmware EFI_NOT_FOUND) example_EIO
                   example_strerror example_device
                   (EFIPCI_LOCATION 0x10 EFIPCI_WIDTH_WORD) 0)
                (boot tt))
     = [Dbg ("EFIPCI config read from PCI %02x:%02x.%x"
             ++ " offset %02lx failed: %s" ++ newline)
            [ArgHex 3; ArgHex 4; ArgHex 5; ArgHex 0x10; ArgStr "Error"]]
  /\ messages
       (emitted (efipci_read (refusing_firmware EFI_NOT_FOUND) example_EIO
                   example_strerror example_device
                   (EFIPCI_LOCATION 0x10 EFIPCI_WIDTH_DWORD) 0)
                (boot tt))
     = [Dbg ("EFIPCI config read from PCI %02x:%02x.%x"
             ++ " offset %02lx failed: %s" ++ newline)
            [ArgHex 3; ArgHex 4; ArgHex 5; ArgHex 0x10; ArgStr "Error"]].
Proof. repeat split. Qed.

Lemma efipci_failure_logged_witness :
  EFI_NOT_FOUND <> 0
  /\ efipci_read (refusing_firmware EFI_NOT_FOUND) example_EIO
       example_strerror example_device
       (EFIPCI_LOCATION 0x10 EFIPCI_WIDTH_DWORD) 0 (boot tt)
     = ((- example_EIO, 0),
        {| firmware := tt;
           trace := [PciRead 2 0x03040510 1;
                     Dbg ("EFIPCI config read from PCI %02x:%02x.%x"
                          ++ " offset %02lx failed: %s" ++ newline)
                         [ArgHex 3; ArgHex 4; ArgHex 5; ArgHex 0x10;
                          ArgStr "Error"]] |}).
Proof.
  assert (NZ : EFI_NOT_FOUND <> 0) by (vm_compute; discriminate).
  split; [exact NZ|].
  exact (proj1 (efipci_failure_logged
                  (refusing_firmware EFI_NOT_FOUND) example_EIO
                  example_strerror example_device
                  (EFIPCI_LOCATION 0x10 EFIPCI_WIDTH_DWORD) 0 (boot tt)
                  EFI_NOT_FOUND 0 tt EFI_NOT_FOUND tt eq_refl eq_refl) NZ).
Defined.

Lemma efipci_address_width_independent_witness :
  EFIPCI_WIDTH (EFIPCI_LOCATION 0x04 EFIPCI_WIDTH_BYTE)
  <> EFIPCI_WIDTH (EFIPCI_LOCATION 0x04 EFIPCI_WIDTH_DWORD)
  /\ EFIPCI_OFFSET (EFIPCI_LOCATION 0x04 EFIPCI_WIDTH_BYTE)
     = EFIPCI_OFFSET (EFIPCI_LOCATION 0x04 EFIPCI_WIDTH_DWORD)
  /\ efipci_address example_device (EFIPCI_LOCATION 0x04 EFIPCI_WIDTH_BYTE)
     = efipci_address example_device
         (EFIPCI_LOCATION 0x04 EFIPCI_WIDTH_DWORD).
Proof.
  split; [vm_compute; discriminate|].
  split; [reflexivity|].
  exact (proj1 (efipci_address_width_independent example_device
                  (EFIPCI_LOCATION 0x04 EFIPCI_WIDTH_BYTE)
                  (EFIPCI_LOCATION 0x04 EFIPCI_WIDTH_DWORD) eq_refl)).
Defined.


(** * Further properties of the EFI accessors *)

Lemma land_shiftl_small (x y n : Z) :
  0 <= n -> 0 <= y < 2 ^ n -> Z.land (Z.shiftl x n) y = 0.
Proof.
  intros Hn Hy. apply Z.bits_inj'. intros k Hk.
  rewrite Z.land_spec, Z.bits_0.
  destruct (Z_lt_le_dec k n) as [Lt|Ge].
  - rewrite Z.shiftl_spec_low by lia. reflexivity.
  - destruct (Z.eq_dec y 0) as [->|NZ].
    + rewrite Z.bits_0. apply Bool.andb_false_r.
    + rewrite (Z.bits_above_log2 y k); [apply Bool.andb_false_r | lia |].
      apply Z.lt_le_trans with n; [apply Z.log2_lt_pow2; lia | lia].
Qed.

Lemma lor_shiftl_add (x y n : Z) :
  0 <= n -> 0 <= y < 2 ^ n -> Z.lor (Z.shiftl x n) y = x * 2 ^ n + y.
Proof.
  intros Hn Hy.
  pose proof (land_shiftl_small x y n Hn Hy) as D.
  rewrite <- Z.lxor_lor by exact D.
  rewrite <- Z.add_nocarry_lxor by exact D.
  rewrite Z.shiftl_mul_pow2 by lia. reflexivity.
Qed.

Lemma EFI_PCI_ADDRESS_sum (bus dev func reg : Z) :
  0 <= dev <= 31 -> 0 <= func <= 7 -> 0 <= reg <= 255 ->
  EFI_PCI_ADDRESS bus dev func reg
  = bus * 2 ^ 24 + dev * 2 ^ 16 + func * 2 ^ 8 + reg.
Proof.
  intros Hd Hf Hr. unfold EFI_PCI_ADDRESS.
  assert (E1 : Z.lor (Z.shiftl bus 24) (Z.shiftl dev 16)
               = Z.shiftl (bus * 2 ^ 8 + dev) 16).
  { rewrite (Z.shiftl_mul_pow2 dev 16) by lia.
    rewrite lor_shiftl_add by (simpl in *; lia).
    rewrite Z.shiftl_mul_pow2 by lia. simpl. lia. }
  rewrite E1.
  assert (E2 : Z.lor (Z.shiftl (bus * 2 ^ 8 + dev) 16) (Z.shiftl func 8)
               = Z.shiftl ((bus * 2 ^ 8 + dev) * 2 ^ 8 + func) 8).
  { rewrite (Z.shiftl_mul_pow2 func 8) by lia.
    rewrite lor_shiftl_add by (simpl in *; lia).
    rewrite Z.shiftl_mul_pow2 by lia. simpl. lia. }
  rewrite E2.
  rewrite lor_shiftl_add by (simpl in *; lia).
  simpl. lia.
Qed.

Lemma PCI_BUSDEVFN_fields (b : Z) :
  0 <= b < 2 ^ 16 ->
  PCI_BUSDEVFN (PCI_BUS b) (PCI_SLOT b) (PCI_FUNC b) = b.
Proof.
  intros Hb.
  pose proof (PCI_SLOT_bound b) as Hs. pose proof (PCI_FUNC_bound b) as Hf.
  unfold PCI_BUSDEVFN. rewrite Z.shiftl_0_r.
  assert (E : Z.lor (Z.shiftl (PCI_BUS b) 8) (Z.shiftl (PCI_SLOT b) 3)
              = Z.shiftl (PCI_BUS b * 2 ^ 5 + PCI_SLOT b) 3).
  { rewrite (Z.shiftl_mul_pow2 (PCI_SLOT b) 3) by lia.
    rewrite lor_shiftl_add by (simpl in *; lia).
    rewrite Z.shiftl_mul_pow2 by lia. simpl. lia. }
  rewrite E. rewrite lor_shiftl_add by (simpl in *; lia).
  unfold PCI_BUS, PCI_SLOT, PCI_FUNC.
  change 0xff with (Z.ones 8). change 0x1f with (Z.ones 5).
  change 0x07 with (Z.ones 3).
  rewrite !Z.land_ones by lia. rewrite !Z.shiftr_div_pow2 by lia.
  change (2 ^ 8) with 256. change (2 ^ 5) with 32. change (2 ^ 3) with 8.
  change (2 ^ 0) with 1. change (2 ^ 16) with 65536 in Hb.
  clear E Hs Hf. Z.div_mod_to_equations. lia.
Qed.

(** X1: whatever [busdevfn] and location are given, as long as the
    register offset carried by the location is at most 255, the
    address is the plain sum of the four fields, each scaled to its own
    byte, and it fits in 32 bits. *)
Theorem efipci_address_sum (pci : pci_device) (location : Z) :
  EFIPCI_OFFSET location <= 255 ->
  efipci_address pci location
  = PCI_BUS (busdevfn pci) * 2 ^ 24 + PCI_SLOT (busdevfn pci) * 2 ^ 16
    + PCI_FUNC (busdevfn pci) * 2 ^ 8 + EFIPCI_OFFSET location
  /\ 0 <= efipci_address pci location < 2 ^ 32.
Proof.
  intros Ho.
  pose proof (PCI_BUS_bound (busdevfn pci)) as Hb.
  pose proof (PCI_SLOT_bound (busdevfn pci)) as Hs.
  pose proof (PCI_FUNC_bound (busdevfn pci)) as Hf.
  pose proof (EFIPCI_OFFSET_bound location) as Hl.
  unfold efipci_address.
  rewrite EFI_PCI_ADDRESS_sum by lia.
  simpl in *. lia.
Qed.

(** X2: two packed locators below [2 ^ 16] and two locations whose
    register offsets are at most 255 get the same address only if the
    locators are equal and the offsets are equal: no two registers of
    the bus share a Config Address. *)
Theorem efipci_address_injective (b b' location location' : Z) :
  0 <= b < 2 ^ 16 -> 0 <= b' < 2 ^ 16 ->
  EFIPCI_OFFSET location <= 255 -> EFIPCI_OFFSET location' <= 255 ->
  efipci_address {| busdevfn := b |} location
  = efipci_address {| busdevfn := b' |} location' ->
  b = b' /\ EFIPCI_OFFSET location = EFIPCI_OFFSET location'.
Proof.
  intros Hb Hb' Ho Ho' E.
  pose proof (EFIPCI_OFFSET_bound location) as Hl.
  pose proof (EFIPCI_OFFSET_bound location') as Hl'.
  assert (D : efipci_decode (efipci_address {| busdevfn := b |} location)
              = efipci_decode
                  (efipci_address {| busdevfn := b' |} location'))
    by (rewrite E; reflexivity).
  unfold efipci_address in D. simpl busdevfn in D.
  rewrite !efipci_decode_EFI_PCI_ADDRESS in D
    by (try apply PCI_BUS_bound; try apply PCI_SLOT_bound;
        try apply PCI_FUNC_bound; lia).
  injection D as Ebus Eslot Efunc Eoff.
  split; [|exact Eoff].
  rewrite <- (PCI_BUSDEVFN_fields b Hb), <- (PCI_BUSDEVFN_fields b' Hb').
  rewrite Ebus, Eslot, Efunc. reflexivity.
Qed.

Section Sequences.

Context {FW : Type}.
Variable efipci : EFI_PCI_ROOT_BRIDGE_IO_PROTOCOL FW.
Variable EIO : Z.
Variable efi_strerror : EFI_STATUS -> string.

(** A call only ever adds to the trace. *)
Lemma efipci_read_extends (pci : pci_device) (location value : Z)
  (w : world FW) :
  trace (snd (efipci_read efipci EIO efi_strerror pci location value w))
  = trace w
    ++ emitted (efipci_read efipci EIO efi_strerror pci location value) w.
Proof.
  unfold emitted.
  destruct (Pci_Read efipci (firmware w) (EFIPCI_WIDTH location)
              (efipci_address pci location) 1 value)
    as [[efirc buffer] fw'] eqn:E.
  destruct (Z.eq_dec efirc 0) as [Z0|NZ].
  - subst efirc. rewrite (efipci_read_ok _ _ _ _ _ _ _ _ _ E). simpl.
    rewrite skipn_length_app. reflexivity.
  - rewrite (efipci_read_fail _ _ _ _ _ _ _ _ _ _ E NZ). simpl.
    rewrite <- app_assoc, skipn_length_app. reflexivity.
Qed.

Lemma efipci_write_extends (pci : pci_device) (location value : Z)
  (w : world FW) :
  trace (snd (efipci_write efipci EIO efi_strerror pci location value w))
  = trace w
    ++ emitted (efipci_write efipci EIO efi_strerror pci location value) w.
Proof.
  unfold emitted.
  destruct (Pci_Write efipci (firmware w) (EFIPCI_WIDTH location)
              (efipci_address pci location) 1 value)
    as [efirc fw'] eqn:E.
  destruct (Z.eq_dec efirc 0) as [Z0|NZ].
  - subst efirc. rewrite (efipci_write_ok _ _ _ _ _ _ _ _ E). simpl.
    rewrite skipn_length_app. reflexivity.
  - rewrite (efipci_write_fail _ _ _ _ _ _ _ _ _ E NZ). simpl.
    rewrite <- app_assoc, skipn_length_app. reflexivity.
Qed.

(** What a sequence emits is what its parts emit, one after the other,
    provided the first part only adds to the trace. *)
Lemma emitted_bind {A B : Type} (m : M FW A) (k : A -> M FW B)
  (w : world FW) :
  trace (snd (m w)) = trace w ++ emitted m w ->
  trace (snd (k (fst (m w)) (snd (m w))))
  = trace (snd (m w)) ++ emitted (k (fst (m w))) (snd (m w)) ->
  emitted (bind m k) w
  = emitted m w ++ emitted (k (fst (m w))) (snd (m w)).
Proof.
  intros Hm Hk. unfold emitted at 1. unfold bind.
  destruct (m w) as [a w1] eqn:E. simpl fst in *. simpl snd in *.
  rewrite Hk, Hm, <- app_assoc, skipn_length_app. reflexivity.
Qed.

Lemma transactions_app (l l' : list event) :
  transactions (l ++ l') = transactions l ++ transactions l'.
Proof. apply filter_app. Qed.

(** X3: nothing is cached.  Two reads in a row are two firmware
    transactions, in program order, each with its own width and
    address, whatever the first one returned and even when both name
    the same register of the same device. *)
Theorem efipci_read_twice (pci pci' : pci_device)
  (location location' value value' : Z) (w : world FW) :
  transactions
    (emitted
       (bind (efipci_read efipci EIO efi_strerror pci location value)
             (fun _ =>
                efipci_read efipci EIO efi_strerror pci' location' value'))
       w)
  = [PciRead (EFIPCI_WIDTH location) (efipci_address pci location) 1;
     PciRead (EFIPCI_WIDTH location') (efipci_address pci' location') 1].
Proof.
  rewrite emitted_bind.
  - rewrite transactions_app, !efipci_read_transactions. reflexivity.
  - apply efipci_read_extends.
  - apply efipci_read_extends.
Qed.

(** X4: a write followed by a read of the same location of the same
    device.  If the firmware accepts the write and then returns the
    stored value for that width and address, the pair returns success
    and the value written; the write and the read reach the firmware
    with the same width and the same address, and nothing is logged. *)
Theorem efipci_write_then_read (pci : pci_device)
  (location value buffer : Z) (w : world FW) (fw1 fw2 : FW) :
  Pci_Write efipci (firmware w) (EFIPCI_WIDTH location)
            (efipci_address pci location) 1 value = (0, fw1) ->
  Pci_Read efipci fw1 (EFIPCI_WIDTH location)
           (efipci_address pci location) 1 buffer = (0, value, fw2) ->
  bind (efipci_write efipci EIO efi_strerror pci location value)
       (fun rc =>
          r <- efipci_read efipci EIO efi_strerror pci location buffer ;;
          ret (rc, r))
       w
  = ((0, (0, value)),
     {| firmware := fw2;
        trace := trace w
                 ++ [PciWrite (EFIPCI_WIDTH location)
                              (efipci_address pci location) 1 value;
                     PciRead (EFIPCI_WIDTH location)
                             (efipci_address pci location) 1] |}).
Proof.
  intros Hw Hr. unfold bind at 1.
  rewrite (efipci_write_ok _ _ _ _ _ _ _ _ Hw).
  unfold bind.
  rewrite (efipci_read_ok efipci EIO efi_strerror pci location buffer
             {| firmware := fw1;
                trace := trace w
                         ++ [PciWrite (EFIPCI_WIDTH location)
                                      (efipci_address pci location)
                                      1 value] |}
             value fw2 Hr).
  unfold ret. simpl. rewrite <- app_assoc. reflexivity.
Qed.

(** X5: a call logs exactly when it fails.  With status 0 from the
    firmware no debug message is produced; with any other status
    exactly one is. *)
Theorem efipci_logs_iff_failure (pci : pci_device)
  (location value : Z) (w : world FW)
  (rd_rc buffer : Z) (rd_fw : FW) (wr_rc : Z) (wr_fw : FW) :
  Pci_Read efipci (firmware w) (EFIPCI_WIDTH location)
           (efipci_address pci location) 1 value = (rd_rc, buffer, rd_fw) ->
  Pci_Write efipci (firmware w) (EFIPCI_WIDTH location)
            (efipci_address pci location) 1 value = (wr_rc, wr_fw) ->
  List.length
    (messages
       (emitted (efipci_read efipci EIO efi_strerror pci location value) w))
  = (if rd_rc =? 0 then 0%nat else 1%nat)
  /\ List.length
       (messages
          (emitted (efipci_write efipci EIO efi_strerror pci location value)
                   w))
     = (if wr_rc =? 0 then 0%nat else 1%nat).
Proof.
  intros Hr Hw. unfold emitted. split.
  - destruct (Z.eqb_spec rd_rc 0) as [Z0|NZ].
    + subst rd_rc. rewrite (efipci_read_ok _ _ _ _ _ _ _ _ _ Hr). simpl.
      rewrite skipn_length_app. reflexivity.
    + rewrite (efipci_read_fail _ _ _ _ _ _ _ _ _ _ Hr NZ). simpl.
      rewrite <- app_assoc, skipn_length_app. reflexivity.
  - destruct (Z.eqb_spec wr_rc 0) as [Z0|NZ].
    + subst wr_rc. rewrite (efipci_write_ok _ _ _ _ _ _ _ _ Hw). simpl.
      rewrite skipn_length_app. reflexivity.
    + rewrite (efipci_write_fail _ _ _ _ _ _ _ _ _ Hw NZ). simpl.
      rewrite <- app_assoc, skipn_length_app. reflexivity.
Qed.

End Sequences.

(** * Properties of the mathematical self-tests *)

Lemma successes_app (l l' : list report) :
  successes (l ++ l') = successes l ++ successes l'.
Proof.
  induction l as [|[s f n|c] l IH]; simpl; [reflexivity| |exact IH].
  rewrite IH. reflexivity.
Qed.

Lemma assertions_app (l l' : list report) :
  assertions (l ++ l') = assertions l ++ assertions l'.
Proof.
  induction l as [|[s f n|c] l IH]; simpl; [reflexivity|exact IH|].
  rewrite IH. reflexivity.
Qed.

Lemma to_s64_to_u64 (z : Z) :
  - 2 ^ 63 <= z < 2 ^ 63 -> to_s64 (to_u64 z) = z.
Proof.
  intros H. unfold to_s64, to_u64.
  change (2 ^ 63) with 9223372036854775808 in *.
  change (2 ^ 64) with 18446744073709551616.
  Z.div_mod_to_equations. lia.
Qed.

Lemma to_u64_small (z : Z) : 0 <= z < 2 ^ 64 -> to_u64 z = z.
Proof. intros H. apply Z.mod_small. exact H. Qed.

Section Divmod.

Variable stack : nat -> Z.

(** One run of [check_divmod] on operands for which the operation is
    defined. *)
Lemma check_divmod_run (OP : Z -> Z -> option Z) (dividend divisor r : Z)
  (h : harness) :
  OP dividend divisor = Some r ->
  check_divmod stack OP dividend divisor h
  = Some (to_u64 r,
          {| reports :=
               reports h
               ++ (if stack (stack_checks h) =? 0 then []
                   else [Assert (stack (stack_checks h)
                                 =? stack (S (stack_checks h)))]);
             stack_checks := S (S (stack_checks h)) |}).
Proof.
  intros E. unfold check_divmod, check_divmod_loop, tbind, defined,
    stack_check, assert, tret.
  simpl. rewrite E.
  destruct (stack (stack_checks h) =? 0); simpl.
  - rewrite app_nil_r. reflexivity.
  - reflexivity.
Qed.

Lemma check_divmod_undefined (OP : Z -> Z -> option Z)
  (dividend divisor : Z) (h : harness) :
  OP dividend divisor = None ->
  check_divmod stack OP dividend divisor h = None.
Proof.
  intros E. unfold check_divmod, check_divmod_loop, tbind, defined,
    stack_check. simpl. rewrite E. reflexivity.
Qed.

(** X6: [check_divmod] yields the result of the operation, as a
    [uint64_t], after sampling the stack twice; it asserts exactly that
    the second sample equals the first, unless the first sample is
    [NULL], in which case nothing is asserted.  Where the operation is
    undefined, so is [check_divmod]. *)
Theorem check_divmod_asserts_stable_stack (OP : Z -> Z -> option Z)
  (dividend divisor : Z) (h : harness) :
  match OP dividend divisor with
  | Some r =>
      exists h',
        check_divmod stack OP dividend divisor h = Some (to_u64 r, h')
        /\ stack_checks h' = S (S (stack_checks h))
        /\ successes (reports h') = successes (reports h)
        /\ assertions (reports h')
           = assertions (reports h)
             ++ (if stack (stack_checks h) =? 0 then []
                 else [stack (stack_checks h)
                       =? stack (S (stack_checks h))])
  | None => check_divmod stack OP dividend divisor h = None
  end.
Proof.
  destruct (OP dividend divisor) as [r|] eqn:E.
  - eexists. split; [apply check_divmod_run; exact E|]. simpl.
    rewrite successes_app, assertions_app.
    destruct (stack (stack_checks h) =? 0); simpl;
      rewrite ?app_nil_r; repeat split.
  - apply check_divmod_undefined. exact E.
Qed.

End Divmod.

Section DivmodChecks.

Variable stack : nat -> Z.
Variable file : string.
Variable line : Z.

(** The assertions one [check_divmod] adds when it starts at the
    [n]-th stack sample. *)
Lemma u64div_var_run (dividend divisor : Z) (h : harness) :
  0 <= dividend < 2 ^ 64 -> 0 < divisor ->
  u64div_var stack dividend divisor h
  = Some (dividend / divisor,
          {| reports :=
               reports h
               ++ (if stack (stack_checks h) =? 0 then []
                   else [Assert (stack (stack_checks h)
                                 =? stack (S (stack_checks h)))]);
             stack_checks := S (S (stack_checks h)) |}).
Proof.
  intros Hd Hv. unfold u64div_var.
  rewrite (check_divmod_run stack u64_div dividend divisor
             (dividend / divisor)).
  - rewrite to_u64_small; [reflexivity|].
    split; [apply Z.div_pos; lia|].
    apply Z.le_lt_trans with dividend; [|lia].
    apply Z.div_le_upper_bound; nia.
  - unfold u64_div. destruct (Z.eqb_spec divisor 0); [lia|reflexivity].
Qed.

Lemma u64mod_var_run (dividend divisor : Z) (h : harness) :
  0 <= dividend < 2 ^ 64 -> 0 < divisor ->
  u64mod_var stack dividend divisor h
  = Some (dividend mod divisor,
          {| reports :=
               reports h
               ++ (if stack (stack_checks h) =? 0 then []
                   else [Assert (stack (stack_checks h)
                                 =? stack (S (stack_checks h)))]);
             stack_checks := S (S (stack_checks h)) |}).
Proof.
  intros Hd Hv. unfold u64mod_var.
  rewrite (check_divmod_run stack u64_mod dividend divisor
             (dividend mod divisor)).
  - rewrite to_u64_small; [reflexivity|].
    pose proof (Z.mod_pos_bound dividend divisor Hv).
    pose proof (Z.mod_le dividend divisor). lia.
  - unfold u64_mod. destruct (Z.eqb_spec divisor 0); [lia|reflexivity].
Qed.

Lemma u64divmod_okx_run (dividend divisor quotient remainder : Z)
  (h : harness) :
  0 <= dividend < 2 ^ 64 -> 0 < divisor ->
  exists h',
    u64divmod_okx stack dividend divisor quotient remainder file line h
    = Some (tt, h')
    /\ successes (reports h')
       = successes (reports h)
         ++ [to_u64 (to_u64 (divisor * quotient) + remainder) =? dividend;
             dividend / divisor =? quotient;
             dividend mod divisor =? remainder]
    /\ assertions (reports h')
       = assertions (reports h)
         ++ (if stack (stack_checks h) =? 0 then []
             else [stack (stack_checks h) =? stack (S (stack_checks h))])
         ++ (if stack (S (S (stack_checks h))) =? 0 then []
             else [stack (S (S (stack_checks h)))
                   =? stack (S (S (S (stack_checks h))))]).
Proof.
  intros Hd Hv. unfold u64divmod_okx, tbind, okx.
  rewrite u64div_var_run by assumption.
  rewrite u64mod_var_run by assumption.
  eexists. split; [reflexivity|]. simpl.
  rewrite !successes_app, !assertions_app. simpl.
  destruct (stack (stack_checks h) =? 0);
    destruct (stack (S (S (stack_checks h))) =? 0); simpl;
    rewrite ?successes_app, ?assertions_app, ?app_nil_r; simpl;
    rewrite <- ?app_assoc; simpl; split; reflexivity.
Qed.

(** X7: [u64divmod_okx] on a 64-bit dividend and a non-zero divisor
    reports three checks, in this order: the sanity check on the
    vector, the quotient against [dividend / divisor], the remainder
    against [dividend % divisor].  The last two pass exactly for the
    true quotient and remainder, and whenever both pass the sanity
    check passes too. *)
Theorem u64divmod_okx_checks (dividend divisor quotient remainder : Z)
  (h : harness) :
  0 <= dividend < 2 ^ 64 -> 0 < divisor < 2 ^ 64 ->
  exists (h' : harness) (sane right_quotient right_remainder : bool),
    u64divmod_okx stack dividend divisor quotient remainder file line h
    = Some (tt, h')
    /\ successes (reports h')
       = successes (reports h) ++ [sane; right_quotient; right_remainder]
    /\ (right_quotient = true <-> quotient = dividend / divisor)
    /\ (right_remainder = true <-> remainder = dividend mod divisor)
    /\ (right_quotient = true -> right_remainder = true -> sane = true).
Proof.
  intros Hd Hv.
  destruct (u64divmod_okx_run dividend divisor quotient remainder h)
    as [h' [Hrun [Hs _]]]; [assumption | lia |].
  exists h'. do 3 eexists. split; [exact Hrun|]. split; [exact Hs|].
  split; [|split].
  - rewrite Z.eqb_eq. split; intros; symmetry; assumption.
  - rewrite Z.eqb_eq. split; intros; symmetry; assumption.
  - rewrite !Z.eqb_eq. intros Eq Er. subst quotient remainder.
    assert (Hq : 0 <= divisor * (dividend / divisor) <= dividend)
      by (split; [apply Z.mul_nonneg_nonneg; [lia | apply Z.div_pos; lia]
                 | apply Z.mul_div_le; lia]).
    rewrite (to_u64_small (divisor * (dividend / divisor))) by lia.
    rewrite <- Z.div_mod by lia.
    apply to_u64_small. exact Hd.
Qed.

End DivmodChecks.

(** The quotient and remainder of a signed 64-bit division that is
    defined fit in 64 bits, and so does the product the sanity check
    forms. *)
Lemma s64_quot_rem_bounds (d v : Z) :
  - 2 ^ 63 <= d < 2 ^ 63 -> - 2 ^ 63 <= v < 2 ^ 63 ->
  v <> 0 -> ~ (d = - 2 ^ 63 /\ v = -1) ->
  - 2 ^ 63 <= Z.quot d v < 2 ^ 63
  /\ - 2 ^ 63 <= Z.rem d v < 2 ^ 63
  /\ - 2 ^ 63 <= v * Z.quot d v < 2 ^ 63
  /\ v * Z.quot d v + Z.rem d v = d.
Proof.
  intros Hd Hv NZ NO.
  pose proof (Z.quot_rem' d v) as E.
  change (2 ^ 63) with 9223372036854775808 in *.
  assert (HP : (0 <= d -> 0 <= v * Z.quot d v <= d)
               /\ (d <= 0 -> d <= v * Z.quot d v <= 0)).
  { split; intros; [apply Z.mul_quot_le | apply Z.mul_quot_ge]; lia. }
  destruct HP as [HP1 HP2].
  set (q := Z.quot d v) in *. set (r := Z.rem d v) in *.
  assert (Hq : - 9223372036854775808 <= q < 9223372036854775808).
  { destruct (Z_le_gt_dec 0 d) as [Dp|Dn].
    - specialize (HP1 Dp). clear HP2. nia.
    - assert (Dn' : d <= 0) by lia. specialize (HP2 Dn'). clear HP1.
      destruct (Z.eq_dec v (-1)) as [V1|V1]; [subst v; nia|]. nia. }
  destruct (Z_le_gt_dec 0 d) as [Dp|Dn].
  - specialize (HP1 Dp). lia.
  - assert (Dn' : d <= 0) by lia. specialize (HP2 Dn'). lia.
Qed.

Section SignedChecks.

Variable stack : nat -> Z.
Variable file : string.
Variable line : Z.

Lemma s64_defined (d v : Z) :
  v <> 0 -> ~ (d = - 2 ^ 63 /\ v = -1) ->
  s64_div d v = Some (Z.quot d v) /\ s64_mod d v = Some (Z.rem d v).
Proof.
  intros NZ NO. unfold s64_div, s64_mod.
  destruct (Z.eqb_spec v 0) as [|_]; [contradiction|].
  destruct (Z.eqb_spec d (- 2 ^ 63)) as [Ed|_];
    destruct (Z.eqb_spec v (-1)) as [Ev|_]; simpl;
    try (exfalso; apply NO; split; assumption); split; reflexivity.
Qed.

(** X8: [s64divmod_okx] on signed 64-bit operands for which C defines
    the division (non-zero divisor, and not the most negative dividend
    over -1), given the truncated quotient and the matching remainder,
    runs without undefined behaviour and reports three passed checks:
    the sanity check does not overflow and holds, and the quotient and
    remainder survive the passage through the [uint64_t] result of
    [check_divmod]. *)
Theorem s64divmod_okx_true_vector (dividend divisor : Z) (h : harness) :
  - 2 ^ 63 <= dividend < 2 ^ 63 -> - 2 ^ 63 <= divisor < 2 ^ 63 ->
  divisor <> 0 -> ~ (dividend = - 2 ^ 63 /\ divisor = -1) ->
  exists h',
    s64divmod_okx stack dividend divisor
      (Z.quot dividend divisor) (Z.rem dividend divisor) file line h
    = Some (tt, h')
    /\ successes (reports h')
       = successes (reports h) ++ [true; true; true].
Proof.
  intros Hd Hv NZ NO.
  destruct (s64_quot_rem_bounds dividend divisor Hd Hv NZ NO)
    as [Hq [Hr [Hp Hs]]].
  destruct (s64_defined dividend divisor NZ NO) as [Ediv Emod].
  unfold s64divmod_okx, s64div_var, s64mod_var, tbind, okx, defined,
    tret, s64_mul, s64_add, in_s64.
  replace ((- 2 ^ 63 <=? divisor * Z.quot dividend divisor)
           && (divisor * Z.quot dividend divisor <? 2 ^ 63)) with true
    by (symmetry; apply andb_true_intro; split;
        [apply Z.leb_le | apply Z.ltb_lt]; lia).
  rewrite Hs.
  replace ((- 2 ^ 63 <=? dividend) && (dividend <? 2 ^ 63)) with true
    by (symmetry; apply andb_true_intro; split;
        [apply Z.leb_le | apply Z.ltb_lt]; lia).
  rewrite (check_divmod_run stack s64_div dividend divisor _ _ Ediv).
  rewrite (check_divmod_run stack s64_mod dividend divisor _ _ Emod).
  rewrite !to_s64_to_u64 by assumption.
  rewrite !Z.eqb_refl.
  eexists. split; [reflexivity|]. simpl.
  rewrite !successes_app. simpl.
  destruct (stack (stack_checks h) =? 0);
    destruct (stack (S (S (stack_checks h))) =? 0); simpl;
    rewrite ?successes_app, ?app_nil_r; simpl;
    rewrite <- ?app_assoc; reflexivity.
Qed.

End SignedChecks.

(** ** The whole self-test *)

Lemma passing_seq (k k1 k2 : nat) (m1 m2 : T unit) :
  passing k1 m1 -> passing k2 m2 -> k = (k1 + k2)%nat ->
  passing k (m1 ~;; m2).
Proof.
  intros H1 H2 -> h.
  destruct (H1 h) as [h1 [held1 [R1 [S1 [A1 F1]]]]].
  destruct (H2 h1) as [h2 [held2 [R2 [S2 [A2 F2]]]]].
  exists h2, (held1 ++ held2). unfold tbind. rewrite R1.
  split; [exact R2|]. split; [|split].
  - rewrite S2, S1, repeat_app, app_assoc. reflexivity.
  - rewrite A2, A1, app_assoc. reflexivity.
  - rewrite forallb_app, F1, F2. reflexivity.
Qed.

Lemma okx_passing (file : string) (line : Z) (success : bool) :
  success = true -> passing 1 (okx success file line).
Proof.
  intros -> h. eexists. exists []. split; [reflexivity|]. simpl.
  rewrite successes_app, assertions_app. simpl.
  rewrite app_nil_r. repeat split.
Qed.

Lemma flsl_okx_passing (flsl : Z -> Z) (value msb : Z)
  (file : string) (line : Z) :
  flsl value = msb -> passing 2 (flsl_okx flsl value msb file line).
Proof.
  intros E. unfold flsl_okx, flsl_var.
  eapply passing_seq;
    [ apply okx_passing; apply Z.eqb_eq; exact E
    | apply okx_passing; apply Z.eqb_eq; exact E
    | reflexivity ].
Qed.

Section Stable.

Variable stack : nat -> Z.
Hypothesis stack_stable : forall n : nat, stack n = stack 0%nat.

Lemma stable_assertion (n : nat) :
  forallb (fun c : bool => c)
    (if stack n =? 0 then [] else [stack n =? stack (S n)]) = true.
Proof.
  destruct (stack n =? 0); [reflexivity|]. simpl.
  rewrite (stack_stable n), (stack_stable (S n)), Z.eqb_refl. reflexivity.
Qed.

Lemma u64divmod_okx_passing (dividend divisor quotient remainder : Z)
  (file : string) (line : Z) :
  0 <= dividend < 2 ^ 64 -> 0 < divisor ->
  to_u64 (to_u64 (divisor * quotient) + remainder) = dividend ->
  dividend / divisor = quotient -> dividend mod divisor = remainder ->
  passing 3
    (u64divmod_okx stack dividend divisor quotient remainder file line).
Proof using stack_stable.
  intros Hd Hv Es Eq Er h.
  destruct (u64divmod_okx_run stack file line dividend divisor quotient
              remainder h Hd Hv) as [h' [Hrun [Hs Ha]]].
  exists h'. eexists. split; [exact Hrun|]. split; [|split].
  - rewrite Hs. apply Z.eqb_eq in Es, Eq, Er. rewrite Es, Eq, Er.
    reflexivity.
  - exact Ha.
  - rewrite forallb_app, !stable_assertion. reflexivity.
Qed.

Lemma s64divmod_okx_passing (dividend divisor quotient remainder : Z)
  (file : string) (line : Z) :
  - 2 ^ 63 <= dividend < 2 ^ 63 -> - 2 ^ 63 <= divisor < 2 ^ 63 ->
  divisor <> 0 -> ~ (dividend = - 2 ^ 63 /\ divisor = -1) ->
  Z.quot dividend divisor = quotient -> Z.rem dividend divisor = remainder ->
  passing 3
    (s64divmod_okx stack dividend divisor quotient remainder file line).
Proof using stack_stable.
  intros Hd Hv NZ NO <- <- h.
  destruct (s64_quot_rem_bounds dividend divisor Hd Hv NZ NO)
    as [Hq [Hr [Hp Hs]]].
  destruct (s64_defined dividend divisor NZ NO) as [Ediv Emod].
  unfold s64divmod_okx, s64div_var, s64mod_var, tbind, okx, defined,
    tret, s64_mul, s64_add, in_s64.
  replace ((- 2 ^ 63 <=? divisor * Z.quot dividend divisor)
           && (divisor * Z.quot dividend divisor <? 2 ^ 63)) with true
    by (symmetry; apply andb_true_intro; split;
        [apply Z.leb_le | apply Z.ltb_lt]; lia).
  rewrite Hs.
  replace ((- 2 ^ 63 <=? dividend) && (dividend <? 2 ^ 63)) with true
    by (symmetry; apply andb_true_intro; split;
        [apply Z.leb_le | apply Z.ltb_lt]; lia).
  rewrite (check_divmod_run stack s64_div dividend divisor _ _ Ediv).
  rewrite (check_divmod_run stack s64_mod dividend divisor _ _ Emod).
  rewrite !to_s64_to_u64 by assumption.
  rewrite !Z.eqb_refl.
  eexists.
  exists ((if stack (stack_checks h) =? 0 then []
           else [stack (stack_checks h) =? stack (S (stack_checks h))])
          ++ (if stack (S (S (stack_checks h))) =? 0 then []
              else [stack (S (S (stack_checks h)))
                    =? stack (S (S (S (stack_checks h))))])).
  split; [reflexivity|]. simpl.
  rewrite forallb_app, !stable_assertion.
  rewrite !successes_app, !assertions_app. simpl.
  destruct (stack (stack_checks h) =? 0);
    destruct (stack (S (S (stack_checks h))) =? 0); simpl;
    rewrite ?successes_app, ?assertions_app, ?app_nil_r; simpl;
    rewrite <- ?app_assoc; repeat split.
Qed.

End Stable.

(** X9: the expected values written into [math_test_exec] are the
    right ones.  With [long] of 32 or of 64 bits, [flsl] returning the
    position of the most significant set bit (least significant bit 1,
    zero for no bit), [isqrt] returning the integer square root, and a
    stack pointer that stays put from one pass of [check_divmod] to
    the next, the self-test runs without undefined behaviour, all of
    its 42 checks pass and every assertion holds. *)
Theorem math_test_exec_passes (LONG_BITS : Z) (flsl isqrt : Z -> Z)
  (stack : nat -> Z) (FILE : string) :
  LONG_BITS = 32 \/ LONG_BITS = 64 ->
  (forall value : Z, flsl value = msb_position LONG_BITS value) ->
  (forall value : Z, 0 <= value -> isqrt value = Z.sqrt value) ->
  (forall n : nat, stack n = stack 0%nat) ->
  exists h' : harness,
    math_test_exec LONG_BITS flsl isqrt stack FILE fresh = Some (tt, h')
    /\ successes (reports h') = repeat true 42
    /\ forallb (fun c : bool => c) (assertions (reports h')) = true.
Proof.
  intros HL Hflsl Hisqrt Hstack.
  assert (P : passing 42 (math_test_exec LONG_BITS flsl isqrt stack FILE)).
  { unfold math_test_exec, flsl_ok, u64divmod_ok, s64divmod_ok, ok.
    assert (F : forall value msb line,
               msb_position LONG_BITS value = msb ->
               passing 2 (flsl_okx flsl value msb FILE line))
      by (intros value msb line E; apply flsl_okx_passing;
          rewrite Hflsl; exact E).
    assert (Q : forall value root line,
               0 <= value -> Z.sqrt value = root ->
               passing 1 (okx (isqrt value =? root) FILE line))
      by (intros value root line Hv E; apply okx_passing;
          rewrite (Hisqrt value Hv); apply Z.eqb_eq; exact E).
    assert (U : forall d v q r line,
               0 <= d < 2 ^ 64 -> 0 < v ->
               to_u64 (to_u64 (v * q) + r) = d -> d / v = q -> d mod v = r ->
               passing 3 (u64divmod_okx stack d v q r FILE line))
      by (intros; apply u64divmod_okx_passing; assumption).
    assert (S : forall d v q r line,
               - 2 ^ 63 <= d < 2 ^ 63 -> - 2 ^ 63 <= v < 2 ^ 63 ->
               v <> 0 -> ~ (d = - 2 ^ 63 /\ v = -1) ->
               Z.quot d v = q -> Z.rem d v = r ->
               passing 3 (s64divmod_okx stack d v q r FILE line))
      by (intros; apply s64divmod_okx_passing; assumption).
    clear Hflsl Hisqrt Hstack.
    destruct HL as [-> | ->].
    all: repeat (eapply passing_seq;
                 [ first
                     [ apply F; vm_compute; reflexivity
                     | apply Q; [vm_compute; discriminate
                                | vm_compute; reflexivity]
                     | apply U;
                       [ vm_compute; split; [discriminate | reflexivity]
                       | vm_compute; reflexivity
                       | vm_compute; reflexivity
                       | vm_compute; reflexivity
                       | vm_compute; reflexivity ]
                     | apply S;
                       [ vm_compute; split; [discriminate | reflexivity]
                       | vm_compute; split; [discriminate | reflexivity]
                       | vm_compute; discriminate
                       | vm_compute; intros [A _]; discriminate A
                       | vm_compute; reflexivity
                       | vm_compute; reflexivity ] ]
                 | | reflexivity ]).
    all: apply Q; [vm_compute; discriminate | vm_compute; reflexivity]. }
  destruct (P fresh) as [h' [held [R [S [A F]]]]].
  exists h'. split; [exact R|]. split; [exact S|].
  rewrite A. simpl. exact F.
Qed.

(** * Properties of the keyboard mappings *)

Lemma ascending_above (a : key_mapping) (l : list key_mapping) :
  ascending (a :: l) = true ->
  forall m : key_mapping, In m l -> from a < from m.
Proof.
  revert a. induction l as [|b l IH]; intros a H m Hin; [destruct Hin|].
  simpl in H. apply andb_prop in H. destruct H as [Hab Hl].
  apply Z.ltb_lt in Hab. destruct Hin as [<-|Hin]; [exact Hab|].
  specialize (IH b Hl m Hin). lia.
Qed.

Lemma ascending_tail (a : key_mapping) (l : list key_mapping) :
  ascending (a :: l) = true -> ascending l = true.
Proof.
  destruct l as [|b l]; [reflexivity|]. simpl. intros H.
  apply andb_prop in H. apply H.
Qed.

(** A table in strictly ascending order remaps no character twice. *)
Lemma ascending_NoDup (l : list key_mapping) :
  ascending l = true -> NoDup (map from l).
Proof.
  induction l as [|a l IH]; intros H; [constructor|].
  simpl. constructor.
  - intros Hin. apply in_map_iff in Hin. destruct Hin as [m [E Hm]].
    pose proof (ascending_above a l H m Hm). lia.
  - apply IH. apply (ascending_tail a). exact H.
Qed.

(** X10: both keyboard tables are in strictly ascending order of the
    character they remap, so no character has two entries; no two
    entries produce the same character; no entry maps a character to
    itself; and every character in them is a non-zero 7-bit code. *)
Theorem keymaps_well_formed :
  Forall
    (fun table : list key_mapping =>
       ascending table = true
       /\ NoDup (map from table)
       /\ NoDup (map to table)
       /\ Forall (fun m : key_mapping =>
                    from m <> to m
                    /\ 0 < from m < 0x80 /\ 0 < to m < 0x80) table)
    [it_mapping; no_latin1_mapping].
Proof.
  repeat constructor; try (apply ascending_NoDup; reflexivity);
    try (simpl; intros H;
         repeat (destruct H as [H|H]; [discriminate H|]); exact H);
    simpl; try discriminate; try reflexivity.
Qed.

(** * Instances of the further properties *)

Lemma efipci_address_sum_witness :
  EFIPCI_OFFSET (EFIPCI_LOCATION 0x10 EFIPCI_WIDTH_DWORD) <= 255
  /\ efipci_address example_device (EFIPCI_LOCATION 0x10 EFIPCI_WIDTH_DWORD)
     = 3 * 2 ^ 24 + 4 * 2 ^ 16 + 5 * 2 ^ 8 + 0x10.
Proof.
  assert (H : EFIPCI_OFFSET (EFIPCI_LOCATION 0x10 EFIPCI_WIDTH_DWORD) <= 255)
    by (vm_compute; discriminate).
  split; [exact H|].
  exact (proj1 (efipci_address_sum example_device
                  (EFIPCI_LOCATION 0x10 EFIPCI_WIDTH_DWORD) H)).
Defined.

Lemma efipci_address_injective_witness :
  efipci_address {| busdevfn := 0x0325 |}
    (EFIPCI_LOCATION 0x10 EFIPCI_WIDTH_WORD)
  = efipci_address {| busdevfn := 0x0325 |}
      (EFIPCI_LOCATION 0x10 EFIPCI_WIDTH_DWORD)
  /\ EFIPCI_OFFSET (EFIPCI_LOCATION 0x10 EFIPCI_WIDTH_WORD)
     = EFIPCI_OFFSET (EFIPCI_LOCATION 0x10 EFIPCI_WIDTH_DWORD).
Proof.
  split; [reflexivity|].
  refine (proj2 (efipci_address_injective 0x0325 0x0325
                   (EFIPCI_LOCATION 0x10 EFIPCI_WIDTH_WORD)
                   (EFIPCI_LOCATION 0x10 EFIPCI_WIDTH_DWORD)
                   _ _ _ _ eq_refl)).
  - vm_compute. split; [discriminate | reflexivity].
  - vm_compute. split; [discriminate | reflexivity].
  - vm_compute. discriminate.
  - vm_compute. discriminate.
Defined.

Lemma efipci_write_then_read_witness :
  fst (bind (efipci_write register_file example_EIO example_strerror
               example_device (EFIPCI_LOCATION 0x04 EFIPCI_WIDTH_WORD)
               0x0007)
            (fun rc =>
               r <- efipci_read register_file example_EIO example_strerror
                      example_device
                      (EFIPCI_LOCATION 0x04 EFIPCI_WIDTH_WORD) 0 ;;
               ret (rc, r))
            (boot (fun _ => 0)))
  = (0, (0, 0x0007)).
Proof.
  rewrite (efipci_write_then_read register_file example_EIO
             example_strerror example_device
             (EFIPCI_LOCATION 0x04 EFIPCI_WIDTH_WORD) 0x0007 0
             (boot (fun _ => 0))
             (fun a => if a =? 0x03040504 then 0x0007 else 0)
             (fun a => if a =? 0x03040504 then 0x0007 else 0)
             eq_refl eq_refl).
  reflexivity.
Defined.

Lemma efipci_logs_iff_failure_witness :
  List.length
    (messages
       (emitted (efipci_read (refusing_firmware EFI_NOT_FOUND) example_EIO
                   example_strerror example_device
                   (EFIPCI_LOCATION 0x10 EFIPCI_WIDTH_DWORD) 0)
                (boot tt)))
  = 1%nat.
Proof.
  exact (proj1 (efipci_logs_iff_failure
                  (refusing_firmware EFI_NOT_FOUND) example_EIO
                  example_strerror example_device
                  (EFIPCI_LOCATION 0x10 EFIPCI_WIDTH_DWORD) 0 (boot tt)
                  EFI_NOT_FOUND 0 tt EFI_NOT_FOUND tt eq_refl eq_refl)).
Defined.

Lemma u64divmod_okx_checks_witness :
  exists (h' : harness) (sane right_quotient right_remainder : bool),
    u64divmod_okx (fun _ => 0x1000) 0x2b90ddccf699f765 0xed9f5e73
      0x2eef6ab4 0x0e12f089 "tests/math_test.c" 263 fresh
    = Some (tt, h')
    /\ successes (reports h')
       = successes (reports fresh)
         ++ [sane; right_quotient; right_remainder]
    /\ (right_quotient = true
        <-> 0x2eef6ab4 = 0x2b90ddccf699f765 / 0xed9f5e73)
    /\ (right_remainder = true
        <-> 0x0e12f089 = 0x2b90ddccf699f765 mod 0xed9f5e73)
    /\ (right_quotient = true -> right_remainder = true -> sane = true).
Proof.
  refine (u64divmod_okx_checks (fun _ => 0x1000) "tests/math_test.c" 263
            0x2b90ddccf699f765 0xed9f5e73 0x2eef6ab4 0x0e12f089 fresh
            _ _).
  - vm_compute. split; [discriminate | reflexivity].
  - vm_compute. split; reflexivity.
Defined.

Lemma s64divmod_okx_true_vector_witness :
  Z.quot (- 0x3f61ff23461cb4ac) 0x35968185cdc744f3 = -1
  /\ Z.rem (- 0x3f61ff23461cb4ac) 0x35968185cdc744f3 = - 0x9cb7d9d78556fb9
  /\ exists h',
       s64divmod_okx (fun _ => 0x1000)
         (- 0x3f61ff23461cb4ac) 0x35968185cdc744f3
         (Z.quot (- 0x3f61ff23461cb4ac) 0x35968185cdc744f3)
         (Z.rem (- 0x3f61ff23461cb4ac) 0x35968185cdc744f3)
         "tests/math_test.c" 269 fresh
       = Some (tt, h')
       /\ successes (reports h')
          = successes (reports fresh) ++ [true; true; true].
Proof.
  split; [reflexivity|]. split; [reflexivity|].
  refine (s64divmod_okx_true_vector (fun _ => 0x1000) "tests/math_test.c"
            269 (- 0x3f61ff23461cb4ac) 0x35968185cdc744f3 fresh _ _ _ _).
  - vm_compute. split; [discriminate | reflexivity].
  - vm_compute. split; [discriminate | reflexivity].
  - discriminate.
  - intros [A _]. discriminate A.
Defined.

Lemma math_test_exec_passes_witness :
  exists h' : harness,
    math_test_exec 64 (msb_position 64) Z.sqrt (fun _ => 0x1000)
      "tests/math_test.c" fresh
    = Some (tt, h')
    /\ successes (reports h') = repeat true 42
    /\ forallb (fun c : bool => c) (assertions (reports h')) = true.
Proof.
  exact (math_test_exec_passes 64 (msb_position 64) Z.sqrt
           (fun _ => 0x1000) "tests/math_test.c"
           (or_intror eq_refl) (fun _ => eq_refl) (fun _ _ => eq_refl)
           (fun _ => eq_refl)).
Defined.
